(** * Control-Surface: MIDI message model and transport framing

    A shallow embedding of
      - [src/MIDI_Parsers/MIDI_MessageTypes.hpp]   (message structs),
      - [src/MIDI_Interfaces/USBMIDI_Interface.hpp] (USB packet transport),
      - [src/MIDI_Interfaces/SerialMIDI_Interface.hpp] (byte-stream transport).

    Conventions.  A [uint8_t] is a [Z] in [0, 256); every place where the
    C++ code converts a wider integer to [uint8_t] is written out with
    [u8].  Enumerations with underlying type [uint8_t] are their underlying
    values, because the code reaches them through [static_cast] from
    arbitrary bytes and compares them with [<=] and [>=]. *)

From Stdlib Require Import ZArith List Bool Lia String.
Import ListNotations.
Local Open Scope Z_scope.

(* -------------------------------------------------------------------------- *)
(** ** Bytes *)

Module U8.

(** Conversion of an integer to [uint8_t]. *)
Definition u8 (x : Z) : Z := x mod 256.

(** The predicate "is a value of type [uint8_t]". *)
Definition is_u8 (x : Z) : Prop := 0 <= x < 256.

(** All 256 values of [uint8_t], in increasing order. *)
Definition all_u8 : list Z := map Z.of_nat (seq 0 256).

(** The same for nibbles. *)
Definition all_u4 : list Z := map Z.of_nat (seq 0 16).

(** Membership in a list of integers, as a boolean. *)
Definition mem_Z (x : Z) (l : list Z) : bool := existsb (Z.eqb x) l.

End U8.
Import U8.

(* -------------------------------------------------------------------------- *)
(** ** MIDI_MessageTypes.hpp *)

(** [enum class MIDIMessageType : uint8_t]. *)
Module MIDIMessageType.
Definition NOTE_OFF : Z := 0x80.
Definition NOTE_ON : Z := 0x90.
Definition KEY_PRESSURE : Z := 0xA0.
Definition CC : Z := 0xB0.
Definition CONTROL_CHANGE : Z := CC.
Definition PROGRAM_CHANGE : Z := 0xC0.
Definition CHANNEL_PRESSURE : Z := 0xD0.
Definition PITCH_BEND : Z := 0xE0.
Definition SYSEX_START : Z := 0xF0.
Definition SYSEX_END : Z := 0xF7.
Definition TUNE_REQUEST : Z := 0xF6.
Definition TIMING_CLOCK : Z := 0xF8.
Definition UNDEFINED_REALTIME_1 : Z := 0xF9.
Definition START : Z := 0xFA.
Definition CONTINUE : Z := 0xFB.
Definition STOP : Z := 0xFC.
Definition UNDEFINED_REALTIME_2 : Z := 0xFD.
Definition ACTIVE_SENSING : Z := 0xFE.
Definition RESET : Z := 0xFF.
End MIDIMessageType.

(** [enum class MIDICodeIndexNumber : uint8_t]. *)
Module MIDICodeIndexNumber.
Definition MISC_FUNCTION_CODES : Z := 0x0.
Definition CABLE_EVENTS : Z := 0x1.
Definition SYSTEM_COMMON_2B : Z := 0x2.
Definition SYSTEM_COMMON_3B : Z := 0x3.
Definition SYSEX_START_CONT : Z := 0x4.
Definition SYSTEM_COMMON_1B : Z := 0x5.
Definition SYSEX_END_1B : Z := 0x5.
Definition SYSEX_END_2B : Z := 0x6.
Definition SYSEX_END_3B : Z := 0x7.
Definition NOTE_OFF : Z := 0x8.
Definition NOTE_ON : Z := 0x9.
Definition KEY_PRESSURE : Z := 0xA.
Definition CONTROL_CHANGE : Z := 0xB.
Definition PROGRAM_CHANGE : Z := 0xC.
Definition CHANNEL_PRESSURE : Z := 0xD.
Definition PITCH_BEND : Z := 0xE.
Definition SINGLE_BYTE : Z := 0xF.
End MIDICodeIndexNumber.

(** [struct ChannelMessage]: four [uint8_t] fields. *)
Record ChannelMessage : Type := mkChannelMessage {
  header : Z; (* MIDI status byte (message type and channel) *)
  data1 : Z;
  data2 : Z;
  cable : Z   (* USB MIDI cable number *)
}.

Module ChannelMessage.

(** [bool operator==(ChannelMessage other) const]. *)
Definition eqb (this other : ChannelMessage) : bool :=
  (header this =? header other) && (data1 this =? data1 other) &&
  (data2 this =? data2 other) && (cable this =? cable other).

(** [bool operator!=(ChannelMessage other) const]. *)
Definition neqb (this other : ChannelMessage) : bool := negb (eqb this other).

(** [Channel getChannel() const], as the raw channel number. *)
Definition getChannel (this : ChannelMessage) : Z := Z.land (header this) 0x0F.

(** [MIDIMessageType getMessageType() const]. *)
Definition getMessageType (this : ChannelMessage) : Z :=
  Z.land (header this) 0xF0.

(** [uint8_t getData1() const] and [uint8_t getData2() const]. *)
Definition getData1 (this : ChannelMessage) : Z := data1 this.
Definition getData2 (this : ChannelMessage) : Z := data2 this.

(** [void setData1(uint8_t data)]: the object after the call. *)
Definition setData1 (this : ChannelMessage) (data : Z) : ChannelMessage :=
  {| header := header this; data1 := data; data2 := data2 this;
     cable := cable this |}.

(** [void getData2(uint8_t data) { data2 = data; }]: the one-parameter
    overload.  A [void] method is a function to the object after the call
    paired with the unit value. *)
Definition getData2_1 (this : ChannelMessage) (data : Z)
  : unit * ChannelMessage :=
  (tt, {| header := header this; data1 := data1 this; data2 := data;
          cable := cable this |}).

(** [bool hasTwoDataBytes() const]. *)
Definition hasTwoDataBytes (this : ChannelMessage) : bool :=
  let type := getMessageType this in
  (type <=? MIDIMessageType.CONTROL_CHANGE) ||
  (type =? MIDIMessageType.PITCH_BEND).

(** [bool hasValidHeader() const]. *)
Definition hasValidHeader (this : ChannelMessage) : bool :=
  let type := getMessageType this in
  (MIDIMessageType.NOTE_OFF <=? type) &&
  (type <=? MIDIMessageType.PITCH_BEND).

(** [ChannelMessage(MIDIMessageType type, Channel channel, uint8_t data1,
    uint8_t data2, Cable cable)], with the raw channel and cable numbers
    ([getRaw()]): [uint8_t(type) | channel.getRaw()] is of type [int] and
    is converted to the [uint8_t header] of the delegated constructor. *)
Definition make (type channel data1 data2 cable : Z) : ChannelMessage :=
  mkChannelMessage (u8 (Z.lor (u8 type) channel)) data1 data2 cable.

(** [void setChannel(Channel channel)], with the raw channel number:
    [header &= 0xF0; header |= channel.getRaw();], each compound
    assignment converting back to [uint8_t]. *)
Definition setChannel (this : ChannelMessage) (channel : Z) : ChannelMessage :=
  let header1 := u8 (Z.land (header this) 0xF0) in
  {| header := u8 (Z.lor header1 channel); data1 := data1 this;
     data2 := data2 this; cable := cable this |}.

(** [Cable getCable() const] and [void setCable(Cable cable)], with the
    raw cable number. *)
Definition getCable (this : ChannelMessage) : Z := cable this.
Definition setCable (this : ChannelMessage) (cn : Z) : ChannelMessage :=
  {| header := header this; data1 := data1 this; data2 := data2 this;
     cable := cn |}.

(** [void setMessageType(MIDIMessageType type)]: [header &= 0x0F; header
    |= static_cast<uint8_t>(type) & 0xF0;]. *)
Definition setMessageType (this : ChannelMessage) (type : Z)
  : ChannelMessage :=
  let header1 := u8 (Z.land (header this) 0x0F) in
  {| header := u8 (Z.lor header1 (Z.land (u8 type) 0xF0));
     data1 := data1 this; data2 := data2 this; cable := cable this |}.

(** The member functions the struct declares, by name and in the order of
    the header file (constructors and operators left out). *)
Definition method_names : list string :=
  [ "getChannel"; "setChannel"; "getCable"; "setCable"; "getMessageType";
    "setMessageType"; "getData1"; "getData2"; "setData1"; "getData2";
    "getAddress"; "getChannelCable"; "hasTwoDataBytes";
    "hasValidHeader" ]%string.

End ChannelMessage.

(** Memory as the code sees it through [const uint8_t *]: a byte at every
    address. *)
Definition memory : Type := Z -> Z.

(** [int memcmp(const void *, const void *, size_t)], with the count as a
    natural number: the difference of the first pair of bytes that differ,
    zero when there is none. *)
Fixpoint memcmp (mem : memory) (p q : Z) (n : nat) : Z :=
  match n with
  | O => 0
  | S n' =>
      if mem p =? mem q then memcmp mem (p + 1) (q + 1) n'
      else mem p - mem q
  end.

(** [struct SysExMessage]: a pointer, an 8-bit length and a cable. *)
Record SysExMessage : Type := mkSysExFields {
  sx_data : Z;   (* const uint8_t *data *)
  sx_length : Z; (* uint8_t length *)
  sx_cable : Z   (* uint8_t cable *)
}.

Module SysExMessage.

(** [SysExMessage(const uint8_t *data, size_t length, uint8_t cable)]: the
    member initialiser [length(length)] converts [size_t] to [uint8_t]. *)
Definition make (data : Z) (length : Z) (cable : Z) : SysExMessage :=
  {| sx_data := data; sx_length := u8 length; sx_cable := cable |}.

(** [SysExMessage()]. *)
Definition empty : SysExMessage :=
  {| sx_data := 0; sx_length := 0; sx_cable := 0 |}.

(** [bool operator==(SysExMessage other) const]; the third operand of
    [memcmp] is the member [length] of [this]. *)
Definition eqb (mem : memory) (this other : SysExMessage) : bool :=
  (sx_length this =? sx_length other) &&
  (sx_cable this =? sx_cable other) &&
  (memcmp mem (sx_data this) (sx_data other) (Z.to_nat (sx_length this))
     =? 0).

Definition neqb (mem : memory) (this other : SysExMessage) : bool :=
  negb (eqb mem this other).

End SysExMessage.

(** [struct RealTimeMessage]. *)
Record RealTimeMessage : Type := mkRealTimeMessage {
  rt_message : Z;
  rt_cable : Z
}.

(* -------------------------------------------------------------------------- *)
(** ** The parse event *)

(** Modelled from the spec: the parse-event enumeration ([MIDI_read_t] in
    USBMIDI_Interface.hpp, [MIDIReadEvent] in SerialMIDI_Interface.hpp),
    which is declared in the parser headers and is not among the sources.
    The spec (section 3) gives its five outcomes. *)
Inductive MIDIReadEvent : Type :=
| NO_MESSAGE
| CHANNEL_MESSAGE
| SYSEX_MESSAGE
| SYSEX_CHUNK
| REALTIME_MESSAGE.

Definition MIDI_read_t : Type := MIDIReadEvent.

(** [parseResult != NO_MESSAGE]. *)
Definition is_message (e : MIDIReadEvent) : bool :=
  match e with
  | NO_MESSAGE => false
  | _ => true
  end.

(* -------------------------------------------------------------------------- *)
(** ** USBMIDI_Interface.hpp *)

(** [using MIDIUSBPacket_t = Array<uint8_t, 4>]. *)
Record MIDIUSBPacket_t : Type := mkPacket {
  pkt0 : Z; (* cable number and code index number *)
  pkt1 : Z;
  pkt2 : Z;
  pkt3 : Z
}.

Module USBMIDI_Interface.

(** The code index number and the cable number of a packet: the low and
    the high nibble of its first byte. *)
Definition CIN (p : MIDIUSBPacket_t) : Z := Z.land (pkt0 p) 0x0F.
Definition CN (p : MIDIUSBPacket_t) : Z := Z.shiftr (pkt0 p) 4.

(** The three payload bytes of a packet. *)
Definition payload (p : MIDIUSBPacket_t) : list Z := [pkt1 p; pkt2 p; pkt3 p].

(** [void writeUSBPacket(uint8_t cn, uint8_t cin, uint8_t d0, uint8_t d1,
    uint8_t d2)], as on boards with [USBCON]: the packet handed to
    [MidiUSB.sendMIDI], whose first byte is [uint8_t((cn << 4) | cin)]. *)
Definition writeUSBPacket (cn cin d0 d1 d2 : Z) : MIDIUSBPacket_t :=
  {| pkt0 := u8 (Z.lor (Z.shiftl cn 4) cin);
     pkt1 := d0; pkt2 := d1; pkt3 := d2 |}.

(** [writeUSBPacket] as on Teensy 3.x: the 32-bit word handed to
    [usb_midi_write_packed], [(cn << 4) | cin | (d0 << 8) | (d1 << 16) |
    (d2 << 24)], computed in [int] and converted to [uint32_t]. *)
Definition writeUSBPacket_packed (cn cin d0 d1 d2 : Z) : Z :=
  (Z.lor (Z.lor (Z.lor (Z.lor (Z.shiftl cn 4) cin) (Z.shiftl d0 8))
            (Z.shiftl d1 16)) (Z.shiftl d2 24)) mod 2 ^ 32.

(** The four bytes of a 32-bit word, lowest first, as a packet. *)
Definition unpack (w : Z) : MIDIUSBPacket_t :=
  {| pkt0 := Z.land w 0xFF;
     pkt1 := Z.land (Z.shiftr w 8) 0xFF;
     pkt2 := Z.land (Z.shiftr w 16) 0xFF;
     pkt3 := Z.land (Z.shiftr w 24) 0xFF |}.

(** The number of SysEx bytes a packet carries, as the names of the code
    index numbers say: three in a start-or-continue packet, one, two or
    three in an end packet, none otherwise. *)
Definition sysex_count (p : MIDIUSBPacket_t) : nat :=
  if CIN p =? MIDICodeIndexNumber.SYSEX_START_CONT then 3
  else if CIN p =? MIDICodeIndexNumber.SYSEX_END_1B then 1
  else if CIN p =? MIDICodeIndexNumber.SYSEX_END_2B then 2
  else if CIN p =? MIDICodeIndexNumber.SYSEX_END_3B then 3
  else 0.

(** The SysEx bytes of a packet. *)
Definition sysex_bytes (p : MIDIUSBPacket_t) : list Z :=
  firstn (sysex_count p) (payload p).

(** The send functions return the packets they write, in order; [flush()]
    writes nothing. *)

(** [void sendImpl(uint8_t m, uint8_t c, uint8_t d1, uint8_t d2,
    uint8_t cn)].  The arguments [m >> 4] and [m | c] are of type [int] and
    are converted to the [uint8_t] parameters of [writeUSBPacket]. *)
Definition sendImpl (m c d1 d2 cn : Z) : list MIDIUSBPacket_t :=
  [writeUSBPacket cn (u8 (Z.shiftr m 4)) (u8 (Z.lor m c)) d1 d2].

(** [void sendImpl(uint8_t m, uint8_t c, uint8_t d1, uint8_t cn)]. *)
Definition sendImpl1 (m c d1 cn : Z) : list MIDIUSBPacket_t :=
  sendImpl m c d1 0 cn.

(** [while (length > 3) { writeUSBPacket(cn, 0x4, data[0], data[1],
    data[2]); data += 3; length -= 3; }] of the SysEx [sendImpl]: the
    packets written, and [data] and [length] when the loop is left. *)
Fixpoint sendImpl_while (mem : memory) (data : Z) (length : nat) (cn : Z)
  : list MIDIUSBPacket_t * Z * nat :=
  match length with
  | S (S (S (S _ as length'))) =>
      let '(written, data', length'') :=
        sendImpl_while mem (data + 3) length' cn in
      (writeUSBPacket cn 0x4 (mem data) (mem (data + 1)) (mem (data + 2))
         :: written, data', length'')
  | _ => ([], data, length)
  end.

(** [void sendImpl(const uint8_t *data, size_t length, uint8_t cn)]. *)
Definition sendImpl_sysex (mem : memory) (data : Z) (length : nat) (cn : Z)
  : list MIDIUSBPacket_t :=
  let '(written, data, length) := sendImpl_while mem data length cn in
  written ++
  match length with
  | 3%nat =>
      [writeUSBPacket cn 0x7 (mem data) (mem (data + 1)) (mem (data + 2))]
  | 2%nat => [writeUSBPacket cn 0x6 (mem data) (mem (data + 1)) 0]
  | 1%nat => [writeUSBPacket cn 0x5 (mem data) 0 0]
  | _ => []
  end.

(** [void sendImpl(uint8_t rt, uint8_t cn)]. *)
Definition sendImpl_rt (rt cn : Z) : list MIDIUSBPacket_t :=
  [writeUSBPacket cn 0xF rt 0 0].

(** What one call of [read()] leaves behind: the event returned, the
    packets still pending, the parser, and two records of what the call
    did: how often it called [readUSBPacket] and which packets it handed
    to [parser.parse]. *)
Record outcome (Parser : Type) : Type := mkOutcome {
  event : MIDI_read_t;
  pending : list MIDIUSBPacket_t;
  parser_after : Parser;
  packets_read : nat;
  parsed : list MIDIUSBPacket_t
}.
Arguments mkOutcome {Parser}.
Arguments event {Parser}.
Arguments pending {Parser}.
Arguments parser_after {Parser}.
Arguments packets_read {Parser}.
Arguments parsed {Parser}.

Section Read.

(** [USBMIDI_Parser parser] with its [parse] member (USBMIDI_Parser.hpp is
    not among the sources) and the constant [SYSEX_BUFFER_SIZE] of the
    settings, of type [size_t]. *)
Variable Parser : Type.
Variable parse : Parser -> MIDIUSBPacket_t -> MIDI_read_t * Parser.
Variable SYSEX_BUFFER_SIZE : Z.

(** [readUSBPacket()]: the next packet of the receive queue; as
    [MidiUSB.read()] does, an all-zero packet when nothing is pending. *)
Definition readUSBPacket (rx : list MIDIUSBPacket_t)
  : MIDIUSBPacket_t * list MIDIUSBPacket_t :=
  match rx with
  | [] => (mkPacket 0 0 0 0, [])
  | p :: rx' => (p, rx')
  end.

(** The [for] loop of [read()] from the test [i < (SYSEX_BUFFER_SIZE + 2)
    / 3] on, with [uint8_t i]; [++i] wraps around at 256.  Every
    iteration that does not return takes a packet off the queue, so the
    loop is a recursion on the queue.  The loop of the PC build (on
    [readUSBPacket()]) and the loop for boards with [USBCON] (on
    [MidiUSB.read()]) are the same but for the name of the packet
    source. *)
Fixpoint read_for (rx : list MIDIUSBPacket_t) (i : Z) (parser : Parser)
  (n : nat) (log : list MIDIUSBPacket_t) : outcome Parser :=
  if i <? (SYSEX_BUFFER_SIZE + 2) / 3 then
    match rx with
    | [] => (* readUSBPacket() gives the zero packet: !rx_packet[0] *)
        mkOutcome NO_MESSAGE [] parser (S n) log
    | rx_packet :: rx' =>
        if pkt0 rx_packet =? 0 then
          mkOutcome NO_MESSAGE rx' parser (S n) log
        else
          let (parseResult, parser') := parse parser rx_packet in
          if is_message parseResult then
            mkOutcome parseResult rx' parser' (S n) (log ++ [rx_packet])
          else
            read_for rx' (u8 (i + 1)) parser' (S n) (log ++ [rx_packet])
    end
  else mkOutcome NO_MESSAGE rx parser n log.

(** [MIDI_read_t read() override]. *)
Definition read (rx : list MIDIUSBPacket_t) (parser : Parser)
  : outcome Parser :=
  read_for rx 0 parser 0%nat [].

(** The first [k] packets of the queue are there, none has a zero first
    byte, and the parser completes no message on any of them: the parser
    after the last of them, nothing otherwise. *)
Fixpoint quiet (k : nat) (rx : list MIDIUSBPacket_t) (parser : Parser)
  : option Parser :=
  match k with
  | O => Some parser
  | S k' =>
      match rx with
      | [] => None
      | rx_packet :: rx' =>
          if pkt0 rx_packet =? 0 then None
          else
            let (parseResult, parser') := parse parser rx_packet in
            if is_message parseResult then None else quiet k' rx' parser'
      end
  end.

End Read.

Arguments read_for {Parser}.
Arguments read {Parser}.
Arguments quiet {Parser}.

End USBMIDI_Interface.

(* -------------------------------------------------------------------------- *)
(** ** SerialMIDI_Interface.hpp *)

Module StreamMIDI_Interface.

(** The send functions return the bytes they write to the stream, in
    order.  The cable number is discarded: [(void)cn]. *)

(** [void sendImpl(uint8_t header, uint8_t d1, uint8_t d2, uint8_t cn)]. *)
Definition sendImpl (header d1 d2 cn : Z) : list Z := [header; d1; d2].

(** [void sendImpl(uint8_t header, uint8_t d1, uint8_t cn)]. *)
Definition sendImpl1 (header d1 cn : Z) : list Z := [header; d1].

(** [void sendImpl(const uint8_t *data, size_t length, uint8_t cn)]:
    [stream.write(data, length)]. *)
Definition sendImpl_sysex (mem : memory) (data : Z) (length : nat) (cn : Z)
  : list Z :=
  map (fun i => mem (data + Z.of_nat i)) (seq 0 length).

(** [void sendImpl(uint8_t rt, uint8_t cn)]. *)
Definition sendImpl_rt (rt cn : Z) : list Z := [rt].

(** What one call of [read()] leaves behind: the event returned, the bytes
    still in the stream, the parser, and two records of what the call did:
    how often it called [stream.read()] and which bytes it handed to
    [parser.parse]. *)
Record outcome (Parser : Type) : Type := mkOutcome {
  event : MIDIReadEvent;
  pending : list Z;
  parser_after : Parser;
  bytes_read : nat;
  parsed : list Z
}.
Arguments mkOutcome {Parser}.
Arguments event {Parser}.
Arguments pending {Parser}.
Arguments parser_after {Parser}.
Arguments bytes_read {Parser}.
Arguments parsed {Parser}.

Section Read.

(** [SerialMIDI_Parser parser] with its [parse] member
    (SerialMIDI_Parser.hpp is not among the sources). *)
Variable Parser : Type.
Variable parse : Parser -> Z -> MIDIReadEvent * Parser.

(** [int Stream::available()]: the number of bytes waiting. *)
Definition available (stream : list Z) : Z := Z.of_nat (List.length stream).

(** The [while (stream.available() > 0)] loop of [read()]; the stream is
    the list of bytes waiting, [stream.read()] takes the first. *)
Fixpoint read_while (stream : list Z) (parser : Parser) (n : nat)
  (log : list Z) : outcome Parser :=
  match stream with
  | [] => mkOutcome NO_MESSAGE [] parser n log
  | b :: stream' =>
      let midiByte := u8 b in
      let (parseResult, parser') := parse parser midiByte in
      if is_message parseResult then
        mkOutcome parseResult stream' parser' (S n) (log ++ [midiByte])
      else read_while stream' parser' (S n) (log ++ [midiByte])
  end.

(** [MIDIReadEvent read() override]. *)
Definition read (stream : list Z) (parser : Parser) : outcome Parser :=
  read_while stream parser 0%nat [].

End Read.

Arguments read_while {Parser}.
Arguments read {Parser}.

End StreamMIDI_Interface.

(* -------------------------------------------------------------------------- *)
(** ** Calling a parser in sequence *)

(** [parser.parse] called on every input of a list in order: the event of
    every call, and the parser after the last. *)
Fixpoint run {Parser Input : Type}
  (parse : Parser -> Input -> MIDIReadEvent * Parser)
  (parser : Parser) (inputs : list Input) : list MIDIReadEvent * Parser :=
  match inputs with
  | [] => ([], parser)
  | x :: rest =>
      let (e, parser') := parse parser x in
      let (es, parser'') := run parse parser' rest in
      (e :: es, parser'')
  end.

(** The events of calls that complete no message, but for the last when
    [e] is a message. *)
Definition quiet_then (k : nat) (e : MIDIReadEvent) : list MIDIReadEvent :=
  if is_message e then repeat NO_MESSAGE (k - 1) ++ [e]
  else repeat NO_MESSAGE k.

(* -------------------------------------------------------------------------- *)
(** ** MIDI_Outputs/Bankable/Abstract/MIDIRotaryEncoder.hpp *)

Module MIDIRotaryEncoder.

(** The data members the [update()] method works on; the address and the
    encoder are left out (the position read from the encoder is an
    argument of [update]). *)
Record t : Type := mk {
  speedMultiply : Z;   (* const uint8_t *)
  pulsesPerStep : Z;   (* const uint8_t *)
  previousPosition : Z (* long *)
}.

(** The object after construction: [previousPosition = 0]. *)
Definition make (speedMultiply pulsesPerStep : Z) : t :=
  {| speedMultiply := speedMultiply; pulsesPerStep := pulsesPerStep;
     previousPosition := 0 |}.

(** The values of [long], which has [bits] bits. *)
Definition is_long (bits x : Z) : Prop :=
  - 2 ^ (bits - 1) <= x < 2 ^ (bits - 1).

Definition fits (bits x : Z) : bool :=
  (- 2 ^ (bits - 1) <=? x) && (x <? 2 ^ (bits - 1)).

(** A result of [long] arithmetic: nothing when it overflows, which is
    undefined behaviour. *)
Definition checked (bits x : Z) : option Z :=
  if fits bits x then Some x else None.

(** [void update()], given the position [encoder.read()] returns: the
    object after the call and the value handed to [sender.send], if it was
    called.  Division of [long] truncates towards zero.  Nothing is
    returned where the behaviour is undefined: division by zero and
    overflow of [long]. *)
Definition update (bits : Z) (this : t) (currentPosition : Z)
  : option (t * option Z) :=
  if pulsesPerStep this =? 0 then None
  else
    match checked bits (currentPosition - previousPosition this) with
    | None => None
    | Some moved =>
        let difference := Z.quot moved (pulsesPerStep this) in
        if difference =? 0 then Some (this, None)
        else
          match checked bits (difference * speedMultiply this),
                checked bits (difference * pulsesPerStep this) with
          | Some delta, Some step =>
              match checked bits (previousPosition this + step) with
              | Some position =>
                  Some ({| speedMultiply := speedMultiply this;
                           pulsesPerStep := pulsesPerStep this;
                           previousPosition := position |}, Some delta)
              | None => None
              end
          | _, _ => None
          end
    end.

(** [update()] called once for every position of a list, in order: the
    object after the last call and the values sent, in order. *)
Fixpoint updates (bits : Z) (this : t) (positions : list Z)
  : option (t * list Z) :=
  match positions with
  | [] => Some (this, [])
  | currentPosition :: rest =>
      match update bits this currentPosition with
      | None => None
      | Some (this', sent) =>
          match updates bits this' rest with
          | None => None
          | Some (this'', sents) =>
              Some (this'',
                    match sent with
                    | Some delta => delta :: sents
                    | None => sents
                    end)
          end
      end
  end.

(** The sum of a list of integers. *)
Definition sum (l : list Z) : Z := fold_right Z.add 0 l.

End MIDIRotaryEncoder.

(* -------------------------------------------------------------------------- *)
(** ** The parsers, from the specification

    SerialMIDI_Parser and USBMIDI_Parser are included by the two interface
    headers and are not among the sources. *)

(** Modelled from the spec: the bounded SysEx accumulation buffer of a
    parser (section 4.1, "SysEx Start", "SysEx body bytes", "SysEx End"),
    which is missing with the parsers.  [receiving] tells whether a SysEx
    message is in progress, [buffer] holds the bytes accumulated since the
    last chunk boundary. *)
Record SysExBuffer : Type := mkSysExBuffer {
  receiving : bool;
  buffer : list Z
}.

Module SysExBuffer.

Definition idle : SysExBuffer := {| receiving := false; buffer := [] |}.

(** Modelled from the spec: SysEx Start "resets the accumulation buffer
    index to 0". *)
Definition start : SysExBuffer := {| receiving := true; buffer := [] |}.

(** Modelled from the spec: a body byte is appended; when the buffer
    reaches its capacity the filled buffer is delivered as a chunk, the
    index is reset to 0 and accumulation goes on.  The second component is
    the delivered chunk, if any. *)
Definition add (capacity : nat) (s : SysExBuffer) (b : Z)
  : SysExBuffer * option (list Z) :=
  let filled := buffer s ++ [b] in
  if (capacity <=? List.length filled)%nat
  then ({| receiving := true; buffer := [] |}, Some filled)
  else ({| receiving := true; buffer := filled |}, None).

End SysExBuffer.

Module SerialMIDI_Parser.

(** Modelled from the spec: the states of the byte-stream parser (section
    4.1; SerialMIDI_Parser is missing). *)
Inductive State : Type :=
| Idle
| ChannelMessage1 (* waiting for the first data byte *)
| ChannelMessage2 (* waiting for the second data byte *)
| SysExBody.

(** Modelled from the spec: the byte-stream parser (section 4.1;
    SerialMIDI_Parser is missing): its state, the running status register
    (0 when cleared), the channel message under construction or last
    completed, the SysEx buffer, and the SysEx view and real-time byte last
    delivered. *)
Record t : Type := mk {
  state : State;
  runningStatus : Z;
  midimsg : ChannelMessage;
  sysex : SysExBuffer;
  sysexmsg : list Z;
  rtmsg : Z
}.

(** Modelled from the spec: a parser after reset: no running status, no
    SysEx in progress. *)
Definition init : t :=
  {| state := Idle; runningStatus := 0;
     midimsg := mkChannelMessage 0 0 0 0;
     sysex := SysExBuffer.idle; sysexmsg := []; rtmsg := 0 |}.

(** Modelled from the spec: a status byte "starts a new channel message,
    resets data-byte count to 0": the header of the message under
    construction becomes [status].  The spec names no other field here,
    and none is written: the data bytes are written when they arrive, and
    a byte stream carries no cable number. *)
Definition begin_message (old : ChannelMessage) (status : Z)
  : ChannelMessage :=
  mkChannelMessage status (data1 old) (data2 old) (cable old).

(** Modelled from the spec: the first data byte of a channel message with
    status [status]: the message is complete when its type takes one data
    byte, otherwise the second data byte is awaited. *)
Definition first_data (p : t) (status : Z) (b : Z) : MIDIReadEvent * t :=
  let msg := ChannelMessage.setData1 (begin_message (midimsg p) status) b in
  if ChannelMessage.hasTwoDataBytes msg
  then (NO_MESSAGE,
        mk ChannelMessage2 (runningStatus p) msg (sysex p) (sysexmsg p)
           (rtmsg p))
  else (CHANNEL_MESSAGE,
        mk Idle (runningStatus p) msg (sysex p) (sysexmsg p) (rtmsg p)).

(** Modelled from the spec: [SerialMIDI_Parser::parse(uint8_t)], the
    transition rules of section 4.1 byte by byte (SerialMIDI_Parser is
    missing); [capacity] is the size of the SysEx buffer. *)
Definition parse (capacity : nat) (p : t) (midiByte : Z)
  : MIDIReadEvent * t :=
  if 0xF8 <=? midiByte then
    (* real-time byte: reported, nothing else is disturbed *)
    (REALTIME_MESSAGE,
     mk (state p) (runningStatus p) (midimsg p) (sysex p) (sysexmsg p)
        midiByte)
  else if midiByte =? MIDIMessageType.TUNE_REQUEST then
    (* single byte, complete at once; ends a SysEx in progress *)
    (REALTIME_MESSAGE,
     mk (match state p with SysExBody => Idle | s => s end)
        (runningStatus p) (midimsg p) SysExBuffer.idle (sysexmsg p) midiByte)
  else if midiByte =? MIDIMessageType.SYSEX_START then
    (NO_MESSAGE,
     mk SysExBody 0 (midimsg p) SysExBuffer.start (sysexmsg p) (rtmsg p))
  else if midiByte =? MIDIMessageType.SYSEX_END then
    match state p with
    | SysExBody =>
        (SYSEX_MESSAGE,
         mk Idle 0 (midimsg p) SysExBuffer.idle (buffer (sysex p)) (rtmsg p))
    | _ =>
        (NO_MESSAGE,
         mk Idle (runningStatus p) (midimsg p) (sysex p) (sysexmsg p)
            (rtmsg p))
    end
  else if 0xF0 <=? midiByte then
    (* undefined status byte: discarded *)
    (NO_MESSAGE,
     mk Idle (runningStatus p) (midimsg p) SysExBuffer.idle (sysexmsg p)
        (rtmsg p))
  else if 0x80 <=? midiByte then
    (* channel voice status byte: a new message, running status updated,
       an unterminated SysEx abandoned *)
    (NO_MESSAGE,
     mk ChannelMessage1 midiByte (begin_message (midimsg p) midiByte)
        SysExBuffer.idle
        (sysexmsg p) (rtmsg p))
  else
    (* data byte *)
    match state p with
    | SysExBody =>
        match SysExBuffer.add capacity (sysex p) midiByte with
        | (s, Some chunk) =>
            (SYSEX_CHUNK,
             mk SysExBody (runningStatus p) (midimsg p) s chunk (rtmsg p))
        | (s, None) =>
            (NO_MESSAGE,
             mk SysExBody (runningStatus p) (midimsg p) s (sysexmsg p)
                (rtmsg p))
        end
    | ChannelMessage1 => first_data p (header (midimsg p)) midiByte
    | ChannelMessage2 =>
        (CHANNEL_MESSAGE,
         mk Idle (runningStatus p)
            (mkChannelMessage (header (midimsg p)) (data1 (midimsg p))
               midiByte (cable (midimsg p)))
            (sysex p) (sysexmsg p) (rtmsg p))
    | Idle =>
        if runningStatus p =? 0
        then (NO_MESSAGE, p) (* no running status: discarded *)
        else first_data p (runningStatus p) midiByte
    end.

(** Feeding a sequence of bytes: the event of every byte, and the parser
    after the last. *)
Fixpoint parse_bytes (capacity : nat) (p : t) (bytes : list Z)
  : list MIDIReadEvent * t :=
  match bytes with
  | [] => ([], p)
  | b :: rest =>
      let (e, p') := parse capacity p b in
      let (es, p'') := parse_bytes capacity p' rest in
      (e :: es, p'')
  end.

(** Modelled from the spec: the accessor [getChannelMessage()] of section
    4.3. *)
Definition getChannelMessage (p : t) : ChannelMessage := midimsg p.

End SerialMIDI_Parser.

Module USBMIDI_Parser.

(** Modelled from the spec: the packet parser (section 4.2; USBMIDI_Parser
    is missing): the channel message last completed, one SysEx buffer per
    cable, the SysEx view last delivered with its cable, and the real-time
    message last delivered. *)
Record t : Type := mk {
  midimsg : ChannelMessage;
  sysex : Z -> SysExBuffer;
  sysexmsg : list Z;
  sysexcable : Z;
  rtmsg : RealTimeMessage
}.

(** Modelled from the spec: a parser after reset. *)
Definition init : t :=
  {| midimsg := mkChannelMessage 0 0 0 0;
     sysex := fun _ => SysExBuffer.idle;
     sysexmsg := []; sysexcable := 0;
     rtmsg := mkRealTimeMessage 0 0 |}.

(** What the SysEx bytes of one packet did: the event, the buffer of the
    cable, and the view delivered, if any. *)
Definition sysex_step : Type := MIDIReadEvent * SysExBuffer * option (list Z).

(** Modelled from the spec: one payload byte of a SysEx packet, under "the
    same chunked-buffer accumulation strategy as section 4.1": the start
    byte resets the buffer, the end byte delivers it, a body byte is
    appended while a message is in progress, anything else is discarded. *)
Definition sysex_byte (capacity : nat) (acc : sysex_step) (b : Z)
  : sysex_step :=
  let '(e, s, view) := acc in
  if b =? MIDIMessageType.SYSEX_START then (e, SysExBuffer.start, view)
  else if b =? MIDIMessageType.SYSEX_END then
    if receiving s then (SYSEX_MESSAGE, SysExBuffer.idle, Some (buffer s))
    else (e, s, view)
  else if (b <? 0x80) && receiving s then
    match SysExBuffer.add capacity s b with
    | (s', Some chunk) => (SYSEX_CHUNK, s', Some chunk)
    | (s', None) => (e, s', view)
    end
  else (e, s, view).

(** Modelled from the spec: the meaningful payload bytes of a SysEx packet
    are accumulated in the buffer of the packet's cable only. *)
Definition parse_sysex (capacity : nat) (p : t) (cn : Z) (bytes : list Z)
  : MIDIReadEvent * t :=
  let '(e, s, view) :=
    fold_left (sysex_byte capacity) bytes (NO_MESSAGE, sysex p cn, None) in
  let buffers := fun c => if c =? cn then s else sysex p c in
  match view with
  | Some v => (e, mk (midimsg p) buffers v cn (rtmsg p))
  | None => (e, mk (midimsg p) buffers (sysexmsg p) (sysexcable p) (rtmsg p))
  end.

(** Modelled from the spec: [USBMIDI_Parser::parse(uint8_t *packet)]
    (section 4.2; USBMIDI_Parser is missing).  Byte 0 carries the cable
    number and the code index number, which selects how many payload bytes
    are meaningful and what the packet is. *)
Definition parse (capacity : nat) (p : t) (packet : MIDIUSBPacket_t)
  : MIDIReadEvent * t :=
  let cn := USBMIDI_Interface.CN packet in
  let cin := USBMIDI_Interface.CIN packet in
  if (MIDICodeIndexNumber.NOTE_OFF <=? cin) &&
     (cin <=? MIDICodeIndexNumber.PITCH_BEND) then
    (* a single complete channel message *)
    (CHANNEL_MESSAGE,
     mk (mkChannelMessage (pkt1 packet) (pkt2 packet) (pkt3 packet) cn)
        (sysex p) (sysexmsg p) (sysexcable p) (rtmsg p))
  else if cin =? MIDICodeIndexNumber.SYSEX_START_CONT then
    parse_sysex capacity p cn [pkt1 packet; pkt2 packet; pkt3 packet]
  else if cin =? MIDICodeIndexNumber.SYSEX_END_1B then
    parse_sysex capacity p cn [pkt1 packet]
  else if cin =? MIDICodeIndexNumber.SYSEX_END_2B then
    parse_sysex capacity p cn [pkt1 packet; pkt2 packet]
  else if cin =? MIDICodeIndexNumber.SYSEX_END_3B then
    parse_sysex capacity p cn [pkt1 packet; pkt2 packet; pkt3 packet]
  else if cin =? MIDICodeIndexNumber.SINGLE_BYTE then
    (* a single-byte system or real-time message *)
    (REALTIME_MESSAGE,
     mk (midimsg p) (sysex p) (sysexmsg p) (sysexcable p)
        (mkRealTimeMessage (pkt1 packet) cn))
  else (NO_MESSAGE, p).

(** Modelled from the spec: the accessor [getChannelMessage()] of section
    4.3. *)
Definition getChannelMessage (p : t) : ChannelMessage := midimsg p.

End USBMIDI_Parser.

(* ========================================================================== *)
(** * Properties *)

(** ** Bytes *)

Module U8Facts.

Lemma in_all_u8 (x : Z) : is_u8 x -> In x all_u8.
Proof.
  intros Hx. unfold all_u8. apply in_map_iff.
  exists (Z.to_nat x). split.
  - apply Z2Nat.id. apply Hx.
  - apply in_seq. unfold is_u8 in Hx. lia.
Qed.

(** A boolean property checked on all 256 bytes holds for every byte. *)
Lemma forall_u8 (P : Z -> bool) :
  forallb P all_u8 = true -> forall x, is_u8 x -> P x = true.
Proof.
  intros Hall x Hx. rewrite forallb_forall in Hall.
  apply Hall, in_all_u8, Hx.
Qed.

Lemma forall_u4 (P : Z -> bool) :
  forallb P all_u4 = true -> forall x, 0 <= x < 16 -> P x = true.
Proof.
  intros Hall x Hx. rewrite forallb_forall in Hall. apply Hall.
  unfold all_u4. apply in_map_iff. exists (Z.to_nat x). split.
  - apply Z2Nat.id. apply Hx.
  - apply in_seq. lia.
Qed.

Lemma u8_id (x : Z) : is_u8 x -> u8 x = x.
Proof. intros Hx. unfold u8. apply Z.mod_small. exact Hx. Qed.

Lemma u8_range (x : Z) : is_u8 (u8 x).
Proof. unfold is_u8, u8. apply Z.mod_pos_bound. lia. Qed.

(** A mask that fits a byte sees only the low eight bits. *)
Lemma land_u8 (x k : Z) : is_u8 k -> Z.land x k = Z.land (u8 x) k.
Proof.
  intros Hk. unfold u8.
  change 256 with (2 ^ 8). rewrite <- Z.land_ones by lia.
  rewrite <- Z.land_assoc. f_equal.
  rewrite Z.land_comm, Z.land_ones by lia.
  symmetry. apply Z.mod_small. exact Hk.
Qed.

End U8Facts.
Import U8Facts.

(** ** ChannelMessage *)

Module ChannelMessageFacts.
Import ChannelMessage.

Lemma mem_Z_In (x : Z) (l : list Z) : mem_Z x l = true <-> In x l.
Proof.
  unfold mem_Z. rewrite existsb_exists. split.
  - intros [y [Hy Heq]]. apply Z.eqb_eq in Heq. subst. exact Hy.
  - intros Hx. exists x. split; [exact Hx | apply Z.eqb_refl].
Qed.

(** The message type depends on the low eight bits of the header only. *)
Lemma getMessageType_u8 (m : ChannelMessage) :
  getMessageType m = Z.land (u8 (header m)) 0xF0.
Proof. unfold getMessageType. apply land_u8. unfold is_u8. lia. Qed.

(** The headers [hasValidHeader()] accepts, by message type. *)
Lemma hasValidHeader_types (m : ChannelMessage) :
  hasValidHeader m = true <->
  In (getMessageType m) [0x80; 0x90; 0xA0; 0xB0; 0xC0; 0xD0; 0xE0].
Proof.
  rewrite <- mem_Z_In.
  unfold hasValidHeader. cbv zeta. rewrite getMessageType_u8.
  pose proof (u8_range (header m)) as Hb.
  generalize dependent (u8 (header m)). intros b Hb.
  apply (forall_u8
    (fun b => Bool.eqb
       ((MIDIMessageType.NOTE_OFF <=? Z.land b 0xF0) &&
        (Z.land b 0xF0 <=? MIDIMessageType.PITCH_BEND))
       (mem_Z (Z.land b 0xF0) [0x80; 0x90; 0xA0; 0xB0; 0xC0; 0xD0; 0xE0])))
    in Hb; [| vm_compute; reflexivity].
  apply Bool.eqb_prop in Hb. rewrite Hb. reflexivity.
Qed.

(** C6: [hasValidHeader()] is true if and only if the high nibble of the
    header is one of the seven channel-voice types, that is, [header &
    0xF0] is one of 0x80, 0x90, 0xA0, 0xB0, 0xC0, 0xD0, 0xE0. *)
Theorem hasValidHeader_iff (m : ChannelMessage) :
  hasValidHeader m = true <->
  In (Z.land (header m) 0xF0) [0x80; 0x90; 0xA0; 0xB0; 0xC0; 0xD0; 0xE0].
Proof. exact (hasValidHeader_types m). Qed.

(** C3: for a message whose header is a valid channel-voice header (high
    nibble 0x8-0xE), [hasTwoDataBytes()] is true exactly when the high
    nibble of the header says Note Off (0x8), Note On (0x9), Key Pressure
    (0xA), Control Change (0xB) or Pitch Bend (0xE), and false exactly
    when it says Program Change (0xC) or Channel Pressure (0xD). *)
Theorem hasTwoDataBytes_spec (m : ChannelMessage) :
  In (Z.land (header m) 0xF0) [0x80; 0x90; 0xA0; 0xB0; 0xC0; 0xD0; 0xE0] ->
  (hasTwoDataBytes m = true <->
   In (Z.land (header m) 0xF0) [0x80; 0x90; 0xA0; 0xB0; 0xE0]) /\
  (hasTwoDataBytes m = false <->
   In (Z.land (header m) 0xF0) [0xC0; 0xD0]) /\
  hasValidHeader m = true.
Proof.
  intros Hvalid.
  split; [| split; [| apply hasValidHeader_types; exact Hvalid]];
    unfold hasTwoDataBytes; cbv zeta; unfold getMessageType;
    unfold MIDIMessageType.CONTROL_CHANGE, MIDIMessageType.CC,
      MIDIMessageType.PITCH_BEND;
    simpl in Hvalid |- *;
    repeat (destruct Hvalid as [Hvalid | Hvalid];
            [rewrite <- Hvalid; cbn;
             intuition (try discriminate; try lia) |]);
    contradiction.
Qed.

(** The theorem at a Program Change on channel 3 and at a Note On on
    channel 1. *)
Lemma hasTwoDataBytes_spec_witness :
  hasTwoDataBytes (mkChannelMessage 0xC2 5 0 0) = false /\
  hasTwoDataBytes (mkChannelMessage 0x90 60 100 0) = true.
Proof.
  split.
  - pose proof (hasTwoDataBytes_spec (mkChannelMessage 0xC2 5 0 0))
      as (_ & Hone & _); [simpl; tauto |].
    apply Hone. simpl. tauto.
  - pose proof (hasTwoDataBytes_spec (mkChannelMessage 0x90 60 100 0))
      as (Htwo & _ & _); [simpl; tauto |].
    apply Htwo. simpl. tauto.
Defined.

(** [==] compares the four fields. *)
Lemma eqb_fields (a b : ChannelMessage) :
  eqb a b = true <->
  header a = header b /\ data1 a = data1 b /\ data2 a = data2 b /\
  cable a = cable b.
Proof. unfold eqb. rewrite !andb_true_iff, !Z.eqb_eq. tauto. Qed.

(** C7: [a == b] is true exactly when the header, data1, data2 and cable
    fields are pairwise equal, [a != b] is its negation, and the four
    fields are all there is to a message: [a == b] is true exactly when
    the two messages are the same value. *)
Theorem eqb_structural (a b : ChannelMessage) :
  (eqb a b = true <->
   header a = header b /\ data1 a = data1 b /\ data2 a = data2 b /\
   cable a = cable b) /\
  neqb a b = negb (eqb a b) /\
  (eqb a b = true <-> a = b).
Proof.
  pose proof (eqb_fields a b) as Hfields.
  split; [exact Hfields |]. split; [reflexivity |].
  rewrite Hfields. destruct a, b; simpl. split.
  - intros (-> & -> & -> & ->). reflexivity.
  - intros Heq. injection Heq as -> -> -> ->. auto.
Qed.

(** C10: the one-parameter overload [getData2(uint8_t)] is a mutator: it
    sets [data2] to its argument, returns nothing, and leaves [header],
    [data1] and [cable] as they were; the struct declares the name
    [getData2] twice and no method named [setData2]. *)
Theorem getData2_1_mutates (m : ChannelMessage) (d : Z) :
  (let (result, m') := getData2_1 m d in
   result = tt /\ data2 m' = d /\ header m' = header m /\
   data1 m' = data1 m /\ cable m' = cable m) /\
  ~ In "setData2"%string method_names /\
  count_occ string_dec method_names "getData2"%string = 2%nat.
Proof.
  split; [simpl; auto |]. split; [| reflexivity].
  unfold method_names. simpl.
  intros H. repeat (destruct H as [H | H]; [discriminate H |]). exact H.
Qed.

End ChannelMessageFacts.

(** ** SysExMessage *)

Module SysExMessageFacts.
Import SysExMessage.

(** [memcmp] returns zero exactly when the two ranges hold the same
    bytes. *)
Lemma memcmp_zero_iff (mem : memory) (n : nat) :
  forall p q : Z,
    memcmp mem p q n = 0 <->
    (forall i : Z, 0 <= i < Z.of_nat n -> mem (p + i) = mem (q + i)).
Proof.
  induction n as [| n IH]; intros p q.
  - simpl. split; [intros _ i Hi; lia | reflexivity].
  - cbn [memcmp]. destruct (mem p =? mem q) eqn:Hpq.
    + apply Z.eqb_eq in Hpq. rewrite IH. split.
      * intros H i Hi. destruct (Z.eq_dec i 0) as [-> | Hne].
        -- rewrite !Z.add_0_r. exact Hpq.
        -- replace (p + i) with (p + 1 + (i - 1)) by lia.
           replace (q + i) with (q + 1 + (i - 1)) by lia.
           apply H. lia.
      * intros H i Hi.
        replace (p + 1 + i) with (p + (i + 1)) by lia.
        replace (q + 1 + i) with (q + (i + 1)) by lia.
        apply H. lia.
    + apply Z.eqb_neq in Hpq. split.
      * intros H. lia.
      * intros H. exfalso. apply Hpq.
        specialize (H 0). rewrite !Z.add_0_r in H. apply H. lia.
Qed.

(** C9: the constructor stores its [size_t] length in an 8-bit field:
    constructing with length [n] stores [n mod 256]; for every [n >= 256]
    the stored length differs from the argument; and [==] compares the
    truncated lengths and only that many bytes. *)
Theorem length_truncated (mem : memory) (p q n1 n2 c1 c2 : Z) :
  sx_length (make p n1 c1) = n1 mod 256 /\
  (256 <= n1 -> sx_length (make p n1 c1) <> n1) /\
  (eqb mem (make p n1 c1) (make q n2 c2) = true <->
   n1 mod 256 = n2 mod 256 /\ c1 = c2 /\
   forall i : Z, 0 <= i < n1 mod 256 -> mem (p + i) = mem (q + i)).
Proof.
  split; [reflexivity |]. split.
  - intros Hn. simpl. unfold u8.
    pose proof (Z.mod_pos_bound n1 256 ltac:(lia)). lia.
  - unfold eqb, make. simpl. unfold u8.
    rewrite !andb_true_iff, !Z.eqb_eq, memcmp_zero_iff.
    rewrite Z2Nat.id by (apply Z.mod_pos_bound; lia).
    tauto.
Qed.

(** The theorem at a length of 300 bytes, stored as 44, and at two
    messages of lengths 300 and 44 over the same memory, which compare
    equal. *)
Lemma length_truncated_witness :
  sx_length (make 0 300 0) <> 300 /\
  eqb (fun _ => 0) (make 0 300 0) (make 0 44 0) = true.
Proof.
  pose proof (length_truncated (fun _ => 0) 0 0 300 44 0 0)
    as (_ & Hne & Heq).
  split.
  - apply Hne. lia.
  - reflexivity.
Defined.

End SysExMessageFacts.

(** ** USBMIDI_Interface: sending *)

Module USBSendFacts.
Import USBMIDI_Interface.

(** The code index number of a written packet is the one passed, whatever
    the cable number. *)
Lemma CIN_writeUSBPacket (cn cin d0 d1 d2 : Z) :
  0 <= cin < 16 -> CIN (writeUSBPacket cn cin d0 d1 d2) = cin.
Proof.
  intros Hcin. unfold CIN, writeUSBPacket. cbn [pkt0].
  rewrite <- land_u8 by (unfold is_u8; lia).
  rewrite Z.land_lor_distr_l.
  change 15 with (Z.ones 4).
  assert (Hhigh : Z.land (Z.shiftl cn 4) (Z.ones 4) = 0).
  { apply Z.bits_inj'. intros n Hn. rewrite Z.land_spec, Z.bits_0.
    destruct (Z.ltb_spec n 4) as [Hlt | Hge].
    - rewrite Z.shiftl_spec_low by exact Hlt. reflexivity.
    - rewrite Z.ones_spec_high by lia. apply andb_false_r. }
  rewrite Hhigh, Z.lor_0_l, Z.land_ones by lia.
  apply Z.mod_small. change (2 ^ 4) with 16. exact Hcin.
Qed.

(** With a cable number that is a nibble, the first byte of a written
    packet is [(cn << 4) | cin] without truncation, and the cable number
    can be read back. *)
Lemma pkt0_writeUSBPacket (cn cin d0 d1 d2 : Z) :
  0 <= cn < 16 -> 0 <= cin < 16 ->
  pkt0 (writeUSBPacket cn cin d0 d1 d2) = Z.lor (Z.shiftl cn 4) cin /\
  CN (writeUSBPacket cn cin d0 d1 d2) = cn.
Proof.
  intros Hcn Hcin.
  pose proof (forall_u4
    (fun cn => forallb
       (fun cin =>
          (u8 (Z.lor (Z.shiftl cn 4) cin) =? Z.lor (Z.shiftl cn 4) cin) &&
          (Z.shiftr (u8 (Z.lor (Z.shiftl cn 4) cin)) 4 =? cn)) all_u4)
    ltac:(vm_compute; reflexivity) cn Hcn) as H.
  rewrite forallb_forall in H.
  assert (Hin : In cin all_u4).
  { unfold all_u4. apply in_map_iff. exists (Z.to_nat cin).
    split; [apply Z2Nat.id; lia | apply in_seq; lia]. }
  specialize (H cin Hin). apply andb_true_iff in H as [H1 H2].
  apply Z.eqb_eq in H1, H2. unfold CN, writeUSBPacket. cbn [pkt0].
  split; assumption.
Qed.

(** The high nibble of a byte is a nibble and fits a byte. *)
Lemma shiftr4_u8 (m : Z) :
  is_u8 m -> u8 (Z.shiftr m 4) = Z.shiftr m 4 /\ 0 <= Z.shiftr m 4 < 16.
Proof.
  intros Hm.
  pose proof (forall_u8
    (fun m => (u8 (Z.shiftr m 4) =? Z.shiftr m 4) &&
              (0 <=? Z.shiftr m 4) && (Z.shiftr m 4 <? 16))
    ltac:(vm_compute; reflexivity) m Hm) as H.
  rewrite !andb_true_iff, Z.eqb_eq, Z.leb_le, Z.ltb_lt in H. tauto.
Qed.

(** A message type joined with a channel is a byte with the high nibble of
    the message type. *)
Lemma lor_channel_u8 (m c : Z) :
  is_u8 m -> 0 <= c < 16 ->
  u8 (Z.lor m c) = Z.lor m c /\ Z.shiftr (Z.lor m c) 4 = Z.shiftr m 4.
Proof.
  intros Hm Hc.
  pose proof (forall_u8
    (fun m => forallb
       (fun c => (u8 (Z.lor m c) =? Z.lor m c) &&
                 (Z.shiftr (Z.lor m c) 4 =? Z.shiftr m 4)) all_u4)
    ltac:(vm_compute; reflexivity) m Hm) as H.
  rewrite forallb_forall in H.
  assert (Hin : In c all_u4).
  { unfold all_u4. apply in_map_iff. exists (Z.to_nat c).
    split; [apply Z2Nat.id; lia | apply in_seq; lia]. }
  specialize (H c Hin). rewrite andb_true_iff, !Z.eqb_eq in H. exact H.
Qed.

(** C5: a channel-message send with message type [m], channel [c], data
    bytes [d1], [d2] and cable [cn] writes exactly one packet: byte 0 is
    [(cn << 4) | (m >> 4)] as a byte (without truncation when the cable
    number is a nibble), so that the code index number is the high nibble
    of the status byte; byte 1 is the status byte [m | c]; bytes 2 and 3
    are [d1] and [d2].  The one-data-byte variant writes the same packet
    with [d2 = 0]. *)
Theorem sendImpl_channel_packet (m c d1 d2 cn : Z) :
  is_u8 m -> 0x8 <= Z.shiftr m 4 <= 0xE -> Z.land m 0x0F = 0 ->
  0 <= c < 16 ->
  sendImpl m c d1 d2 cn =
    [ {| pkt0 := u8 (Z.lor (Z.shiftl cn 4) (Z.shiftr m 4));
         pkt1 := Z.lor m c; pkt2 := d1; pkt3 := d2 |} ] /\
  (0 <= cn < 16 ->
   u8 (Z.lor (Z.shiftl cn 4) (Z.shiftr m 4)) =
   Z.lor (Z.shiftl cn 4) (Z.shiftr m 4)) /\
  (forall p, In p (sendImpl m c d1 d2 cn) ->
     CIN p = Z.shiftr m 4 /\ CIN p = Z.shiftr (pkt1 p) 4) /\
  sendImpl1 m c d1 cn =
    [ {| pkt0 := u8 (Z.lor (Z.shiftl cn 4) (Z.shiftr m 4));
         pkt1 := Z.lor m c; pkt2 := d1; pkt3 := 0 |} ].
Proof.
  intros Hm _ _ Hc.
  destruct (shiftr4_u8 m Hm) as [Hsh Hnib].
  destruct (lor_channel_u8 m c Hm Hc) as [Hlor Hhigh].
  assert (Hsend : forall d,
    sendImpl m c d1 d cn =
    [ {| pkt0 := u8 (Z.lor (Z.shiftl cn 4) (Z.shiftr m 4));
         pkt1 := Z.lor m c; pkt2 := d1; pkt3 := d |} ]).
  { intros d. unfold sendImpl, writeUSBPacket. rewrite Hsh, Hlor.
    reflexivity. }
  split; [apply Hsend |]. split; [| split; [| apply Hsend]].
  - intros Hcn.
    apply (pkt0_writeUSBPacket cn (Z.shiftr m 4) 0 0 0 Hcn Hnib).
  - intros p [<- | []]. rewrite Hsh. cbn [pkt1 writeUSBPacket].
    rewrite Hlor, Hhigh, CIN_writeUSBPacket by exact Hnib. auto.
Qed.

(** The theorem at a Note On on channel 4 and cable 2. *)
Lemma sendImpl_channel_packet_witness :
  sendImpl 0x90 3 60 100 2 = [mkPacket 0x29 0x93 60 100] /\
  sendImpl1 0x90 3 60 2 = [mkPacket 0x29 0x93 60 0].
Proof.
  pose proof (sendImpl_channel_packet 0x90 3 60 100 2) as H.
  destruct H as (H5 & _ & _ & H4).
  - unfold is_u8. lia.
  - change (Z.shiftr 0x90 4) with 9. lia.
  - reflexivity.
  - lia.
  - split; [exact H5 | exact H4].
Defined.

End USBSendFacts.

Module USBSysExFacts.
Import USBMIDI_Interface.

(** The [while] loop takes one turn when more than three bytes are left. *)
Lemma sendImpl_while_step (mem : memory) (data : Z) (k : nat) (cn : Z) :
  sendImpl_while mem data (S (S (S (S k)))) cn =
  let '(written, data', length') :=
    sendImpl_while mem (data + 3) (S k) cn in
  (writeUSBPacket cn 0x4 (mem data) (mem (data + 1)) (mem (data + 2))
     :: written, data', length').
Proof. reflexivity. Qed.

(** One turn of the [while] loop: with more than three bytes left, a
    packet with code index number 0x4 is written and the rest is sent from
    three bytes further on. *)
Lemma sendImpl_sysex_step (mem : memory) (data : Z) (k : nat) (cn : Z) :
  sendImpl_sysex mem data (S (S (S (S k)))) cn =
  writeUSBPacket cn 0x4 (mem data) (mem (data + 1)) (mem (data + 2))
    :: sendImpl_sysex mem (data + 3) (S k) cn.
Proof.
  unfold sendImpl_sysex. rewrite sendImpl_while_step.
  destruct (sendImpl_while mem (data + 3) (S k) cn) as [[w d] l].
  reflexivity.
Qed.

(** A sequence that starts later is the same sequence with shifted
    indices. *)
Lemma map_seq_shift {A : Type} (f : nat -> A) (a k n : nat) :
  map f (seq (a + k) n) = map (fun i => f (i + k)%nat) (seq a n).
Proof.
  revert a. induction n as [| n IH]; intros a; [reflexivity |].
  cbn [seq map]. f_equal. apply (IH (S a)).
Qed.

(** Induction in steps of three, as the loop runs. *)
Lemma nat_ind3 (P : nat -> Prop) :
  P 0%nat -> P 1%nat -> P 2%nat -> P 3%nat ->
  (forall k, P (S k) -> P (S (S (S (S k))))) ->
  forall n, P n.
Proof.
  intros H0 H1 H2 H3 Hstep n.
  induction n as [n IH] using (well_founded_induction Nat.lt_wf_0).
  destruct n as [| [| [| [| k]]]]; try assumption.
  apply Hstep, IH. lia.
Qed.

(** The number of packets is [ceil(length / 3)]. *)
Lemma sendImpl_sysex_length (mem : memory) (cn : Z) (n : nat) :
  forall data,
    List.length (sendImpl_sysex mem data n cn) = ((n + 2) / 3)%nat.
Proof.
  induction n as [| | | | k IH] using nat_ind3; intros data;
    try reflexivity.
  rewrite sendImpl_sysex_step. cbn [List.length]. rewrite IH.
  replace (S (S (S (S k))) + 2)%nat with ((S k + 2) + 1 * 3)%nat by lia.
  rewrite Nat.div_add by lia. lia.
Qed.

(** Every packet but the last is a start-or-continue packet with three
    consecutive bytes of the message. *)
Lemma sendImpl_sysex_body (mem : memory) (cn : Z) (n : nat) :
  forall data k,
    (S k < List.length (sendImpl_sysex mem data n cn))%nat ->
    nth_error (sendImpl_sysex mem data n cn) k =
    Some (writeUSBPacket cn 0x4
            (mem (data + 3 * Z.of_nat k))
            (mem (data + 3 * Z.of_nat k + 1))
            (mem (data + 3 * Z.of_nat k + 2))).
Proof.
  induction n as [| | | | j IH] using nat_ind3; intros data k Hk;
    try (cbn in Hk; lia).
  rewrite sendImpl_sysex_step in Hk |- *. cbn [List.length] in Hk.
  destruct k as [| k].
  - cbn [nth_error]. rewrite Z.mul_0_r, Z.add_0_r. reflexivity.
  - cbn [nth_error]. rewrite (IH (data + 3) k) by lia.
    do 3 f_equal; lia.
Qed.

(** The last packet ends the message with the one, two or three bytes
    that are left, padded with zeros. *)
Lemma sendImpl_sysex_last (mem : memory) (cn : Z) (n : nat) :
  forall data,
    (1 <= n)%nat ->
    last (sendImpl_sysex mem data n cn) (mkPacket 0 0 0 0) =
    let e := data + Z.of_nat n in
    match (n mod 3)%nat with
    | 0%nat => writeUSBPacket cn 0x7 (mem (e - 3)) (mem (e - 2)) (mem (e - 1))
    | 2%nat => writeUSBPacket cn 0x6 (mem (e - 2)) (mem (e - 1)) 0
    | _ => writeUSBPacket cn 0x5 (mem (e - 1)) 0 0
    end.
Proof.
  induction n as [| | | | j IH] using nat_ind3; intros data Hn.
  - lia.
  - cbn [sendImpl_sysex sendImpl_while app last Nat.modulo Nat.divmod fst snd
         Nat.sub]. cbv zeta. do 2 f_equal; lia.
  - cbn [sendImpl_sysex sendImpl_while app last Nat.modulo Nat.divmod fst snd
         Nat.sub]. cbv zeta. do 2 f_equal; lia.
  - cbn [sendImpl_sysex sendImpl_while app last Nat.modulo Nat.divmod fst snd
         Nat.sub]. cbv zeta. do 2 f_equal; lia.
  - rewrite sendImpl_sysex_step.
    assert (Hne : sendImpl_sysex mem (data + 3) (S j) cn <> []).
    { intros Hnil. apply (f_equal (@List.length _)) in Hnil.
      rewrite sendImpl_sysex_length in Hnil. cbn [List.length] in Hnil.
      assert (1 <= (S j + 2) / 3)%nat
        by (apply Nat.div_le_lower_bound; lia).
      lia. }
    destruct (sendImpl_sysex mem (data + 3) (S j) cn) as [| p ps] eqn:Hs;
      [contradiction |].
    change (last (?x :: p :: ps) ?d) with (last (p :: ps) d).
    rewrite <- Hs, IH by lia.
    replace (S (S (S (S j))) mod 3)%nat with (S j mod 3)%nat.
    + cbv zeta.
      replace (data + 3 + Z.of_nat (S j))
        with (data + Z.of_nat (S (S (S (S j))))) by lia.
      reflexivity.
    + replace (S (S (S (S j)))) with (S j + 1 * 3)%nat by lia.
      rewrite Nat.Div0.mod_add. reflexivity.
Qed.

(** The payloads of the packets, one after the other and cut to the
    length of the message, are the message. *)
Lemma sendImpl_sysex_payload (mem : memory) (cn : Z) (n : nat) :
  forall data,
    firstn n (List.concat (map payload (sendImpl_sysex mem data n cn))) =
    map (fun i => mem (data + Z.of_nat i)) (seq 0 n).
Proof.
  induction n as [| | | | j IH] using nat_ind3; intros data.
  - reflexivity.
  - cbn. rewrite Z.add_0_r. reflexivity.
  - cbn. rewrite Z.add_0_r. reflexivity.
  - cbn. rewrite Z.add_0_r. reflexivity.
  - rewrite sendImpl_sysex_step.
    cbn [map List.concat payload pkt1 pkt2 pkt3 writeUSBPacket app].
    rewrite !firstn_cons, IH.
    change (S (S (S (S j)))) with (3 + S j)%nat at 1.
    rewrite seq_app, map_app.
    change (seq 0 3) with [0; 1; 2]%nat. cbn [map app].
    rewrite (map_seq_shift _ 0 3 (S j)).
    rewrite Z.add_0_r. do 3 f_equal.
    apply map_ext. intros i. f_equal. lia.
Qed.

(** On a cable whose number is a nibble, every packet carries that cable
    number. *)
Lemma sendImpl_sysex_cable (mem : memory) (cn : Z) (n : nat) :
  0 <= cn < 16 ->
  forall data, Forall (fun p => CN p = cn) (sendImpl_sysex mem data n cn).
Proof.
  intros Hcn.
  induction n as [| | | | j IH] using nat_ind3; intros data.
  - constructor.
  - repeat constructor. apply USBSendFacts.pkt0_writeUSBPacket; lia.
  - repeat constructor. apply USBSendFacts.pkt0_writeUSBPacket; lia.
  - repeat constructor. apply USBSendFacts.pkt0_writeUSBPacket; lia.
  - rewrite sendImpl_sysex_step. constructor; [| apply IH].
    apply USBSendFacts.pkt0_writeUSBPacket; lia.
Qed.

(** C2: a SysEx send of [n >= 1] bytes on cable [cn] writes exactly
    [ceil(n / 3)] packets; every packet but the last has code index number
    0x4 and three consecutive bytes of the message; the last has code
    index number 0x7 with three bytes when [n mod 3 = 0], 0x6 with two
    bytes and a zero when [n mod 3 = 2], 0x5 with one byte and two zeros
    when [n mod 3 = 1]; the payloads, one after the other and cut to [n]
    bytes, are the message; for [n = 0] nothing is written. *)
Theorem sendImpl_sysex_packets (mem : memory) (data : Z) (n : nat) (cn : Z) :
  let packets := sendImpl_sysex mem data n cn in
  List.length packets = ((n + 2) / 3)%nat /\
  (forall k, (S k < List.length packets)%nat ->
     exists p, nth_error packets k = Some p /\ CIN p = 0x4 /\
       payload p = [ mem (data + 3 * Z.of_nat k);
                     mem (data + 3 * Z.of_nat k + 1);
                     mem (data + 3 * Z.of_nat k + 2) ]) /\
  ((1 <= n)%nat ->
     let e := data + Z.of_nat n in
     let p := last packets (mkPacket 0 0 0 0) in
     ((n mod 3 = 0)%nat ->
        CIN p = 0x7 /\ payload p = [mem (e - 3); mem (e - 2); mem (e - 1)]) /\
     ((n mod 3 = 2)%nat ->
        CIN p = 0x6 /\ payload p = [mem (e - 2); mem (e - 1); 0]) /\
     ((n mod 3 = 1)%nat ->
        CIN p = 0x5 /\ payload p = [mem (e - 1); 0; 0])) /\
  firstn n (List.concat (map payload packets)) =
    map (fun i => mem (data + Z.of_nat i)) (seq 0 n) /\
  (n = 0%nat -> packets = []) /\
  (0 <= cn < 16 -> Forall (fun p => CN p = cn) packets).
Proof.
  cbv zeta. split; [apply sendImpl_sysex_length |].
  split; [| split; [| split; [apply sendImpl_sysex_payload |
                               split; [| intros H; apply sendImpl_sysex_cable, H]]]].
  - intros k Hk. eexists. split; [apply sendImpl_sysex_body, Hk |].
    split; [apply USBSendFacts.CIN_writeUSBPacket; lia | reflexivity].
  - intros Hn. rewrite sendImpl_sysex_last by exact Hn. cbv zeta.
    split; [| split]; intros Hmod; rewrite Hmod;
      (split; [apply USBSendFacts.CIN_writeUSBPacket; lia | reflexivity]).
  - intros ->. reflexivity.
Qed.

(** The theorem at a message of five bytes 10, 11, 12, 13, 14 on cable 1:
    two packets, the second with code index number 0x6. *)
Lemma sendImpl_sysex_packets_witness :
  sendImpl_sysex (fun a => a + 10) 0 5 1 =
    [mkPacket 0x14 10 11 12; mkPacket 0x16 13 14 0] /\
  CIN (last (sendImpl_sysex (fun a => a + 10) 0 5 1) (mkPacket 0 0 0 0)) = 0x6.
Proof.
  pose proof (sendImpl_sysex_packets (fun a => a + 10) 0 5 1) as H.
  cbv zeta in H. destruct H as (_ & _ & Hlast & _).
  split; [reflexivity |].
  apply Hlast; [lia | reflexivity].
Defined.

End USBSysExFacts.

(** ** Reading *)

Module USBReadFacts.
Import USBMIDI_Interface.

Section Read.

Variable Parser : Type.
Variable parse : Parser -> MIDIUSBPacket_t -> MIDI_read_t * Parser.
Variable SYSEX_BUFFER_SIZE : Z.

Local Abbreviation B := ((SYSEX_BUFFER_SIZE + 2) / 3).
Local Abbreviation read_for := (read_for parse SYSEX_BUFFER_SIZE).
Local Abbreviation read := (read parse SYSEX_BUFFER_SIZE).

(** The loop as the source writes it, with [readUSBPacket()] called at the
    head of the body. *)
Lemma read_for_unfold (rx : list MIDIUSBPacket_t) (i : Z) (parser : Parser)
  (n : nat) (log : list MIDIUSBPacket_t) :
  read_for rx i parser n log =
  if i <? B then
    let (rx_packet, rx') := readUSBPacket rx in
    if pkt0 rx_packet =? 0 then mkOutcome NO_MESSAGE rx' parser (S n) log
    else
      let (parseResult, parser') := parse parser rx_packet in
      if is_message parseResult
      then mkOutcome parseResult rx' parser' (S n) (log ++ [rx_packet])
      else read_for rx' (u8 (i + 1)) parser' (S n) (log ++ [rx_packet])
  else mkOutcome NO_MESSAGE rx parser n log.
Proof. destruct rx; reflexivity. Qed.

(** When the first packet read has a zero first byte, the loop returns at
    once, from any value of the counter. *)
Lemma read_for_no_input (rx : list MIDIUSBPacket_t) (i : Z)
  (parser : Parser) (n : nat) (log : list MIDIUSBPacket_t) :
  pkt0 (fst (readUSBPacket rx)) = 0 ->
  let o := read_for rx i parser n log in
  event o = NO_MESSAGE /\ parser_after o = parser /\ parsed o = log /\
  (packets_read o <= S n)%nat /\
  (pending o = rx \/ pending o = snd (readUSBPacket rx)).
Proof.
  intros Hzero. rewrite read_for_unfold.
  destruct (i <? B).
  - destruct (readUSBPacket rx) as [p rx'] eqn:Hread. cbn [fst snd] in *.
    rewrite Hzero. cbn. repeat split; auto.
  - cbn. repeat split; auto.
Qed.

Section Bounded.

(** The bound of the loop is a value the 8-bit counter [i] can reach. *)
Hypothesis bound_fits : 0 <= SYSEX_BUFFER_SIZE /\ B <= 255.

(** From counter value [i] on, the loop reads at most [B - i] packets and
    takes no packet off the queue that it has not read. *)
Lemma read_for_bound (rx : list MIDIUSBPacket_t) :
  forall (i : Z) (parser : Parser) (n : nat) (log : list MIDIUSBPacket_t),
    0 <= i <= B ->
    let o := read_for rx i parser n log in
    (n <= packets_read o <= n + Z.to_nat (B - i))%nat /\
    (List.length rx <= List.length (pending o) + (packets_read o - n))%nat.
Proof.
  destruct bound_fits as [_ Hfits].
  induction rx as [| p rx' IH]; intros i parser n log Hi; cbv zeta;
    cbn [USBMIDI_Interface.read_for].
  - destruct (Z.ltb_spec i B);
      cbn [packets_read pending List.length]; lia.
  - destruct (Z.ltb_spec i B) as [Hlt | Hge];
      [| cbn [packets_read pending List.length]; lia].
    destruct (pkt0 p =? 0);
      [cbn [packets_read pending List.length]; lia |].
    destruct (parse parser p) as [r parser'].
    destruct (is_message r);
      [cbn [packets_read pending List.length]; lia |].
    assert (Hu8 : u8 (i + 1) = i + 1) by (apply u8_id; unfold is_u8; lia).
    rewrite Hu8.
    specialize (IH (i + 1) parser' (S n) (log ++ [p]) ltac:(lia)).
    cbv zeta in IH. cbn [List.length]. lia.
Qed.

(** When the parser completes no message on the next [B - i] packets, the
    loop reads exactly those, returns [NO_MESSAGE] and leaves the rest of
    the queue pending. *)
Lemma read_for_quiet (k : nat) :
  forall (rx : list MIDIUSBPacket_t) (i : Z) (parser parser' : Parser)
         (n : nat) (log : list MIDIUSBPacket_t),
    0 <= i -> i + Z.of_nat k = B ->
    quiet parse k rx parser = Some parser' ->
    read_for rx i parser n log =
    mkOutcome NO_MESSAGE (skipn k rx) parser' (n + k) (log ++ firstn k rx).
Proof.
  induction k as [| k IH]; intros rx i parser parser' n log Hi Hk Hq.
  - cbn in Hq. injection Hq as <-. rewrite read_for_unfold.
    destruct (Z.ltb_spec i B); [lia |].
    cbn [skipn firstn]. rewrite app_nil_r, Nat.add_0_r. reflexivity.
  - destruct rx as [| p rx']; [discriminate Hq |].
    cbn [quiet] in Hq. cbn [USBMIDI_Interface.read_for].
    destruct (Z.ltb_spec i B); [| lia].
    destruct (pkt0 p =? 0); [discriminate Hq |].
    destruct (parse parser p) as [r parser1].
    destruct (is_message r); [discriminate Hq |].
    assert (Hu8 : u8 (i + 1) = i + 1) by (apply u8_id; unfold is_u8; lia).
    rewrite Hu8, (IH rx' (i + 1) parser1 parser' (S n) (log ++ [p]))
      by (try exact Hq; lia).
    cbn [skipn firstn]. rewrite <- app_assoc. cbn [app].
    f_equal. lia.
Qed.

(** C8: one call of [read()] reads at most [(SYSEX_BUFFER_SIZE + 2) / 3]
    packets, and takes no more than that off the queue, before it returns;
    when that many packets are consumed without the parser completing a
    message, the call returns [NO_MESSAGE] and whatever else is in the
    queue stays pending.  This holds provided the bound is a value the
    8-bit loop counter can reach, [(SYSEX_BUFFER_SIZE + 2) / 3 <= 255],
    which is the hypothesis [bound_fits]; [SYSEX_BUFFER_SIZE] is the
    constant of the settings. *)
Theorem read_bounded (rx : list MIDIUSBPacket_t) (parser : Parser) :
  (packets_read (read rx parser) <= Z.to_nat B)%nat /\
  (List.length rx <=
   List.length (pending (read rx parser)) + Z.to_nat B)%nat /\
  (forall parser',
     quiet parse (Z.to_nat B) rx parser = Some parser' ->
     read rx parser =
     mkOutcome NO_MESSAGE (skipn (Z.to_nat B) rx) parser' (Z.to_nat B)
       (firstn (Z.to_nat B) rx)).
Proof.
  assert (HB : 0 <= B) by (apply Z.div_pos; lia).
  pose proof (read_for_bound rx 0 parser 0%nat [] ltac:(lia)) as Hbound.
  cbv zeta in Hbound. fold (read rx parser) in Hbound.
  rewrite Z.sub_0_r in Hbound.
  split; [lia |]. split; [lia |].
  intros parser' Hq. unfold USBMIDI_Interface.read.
  rewrite (read_for_quiet (Z.to_nat B) rx 0 parser parser' 0%nat [])
    by (try exact Hq; lia).
  reflexivity.
Qed.

End Bounded.

End Read.

(** C8 as stated fails when the bound does not fit the counter.  With a
    SysEx buffer of 766 bytes the bound [(766 + 2) / 3] is 256, [uint8_t
    i] wraps from 255 to 0 and never reaches it, and one call of [read()]
    goes on as long as packets come that complete no message: of 300
    packets that the parser of the specification ignores (reserved code
    index number 0x1), all 300 are read and handed to the parser, more
    than the bound of 256, and the call returns on the 301st read, which
    finds the queue empty. *)
Lemma read_counter_wraps :
  let o := read (USBMIDI_Parser.parse 766) 766
             (repeat (mkPacket 0x01 0 0 0) 300) USBMIDI_Parser.init in
  (766 + 2) / 3 = 256 /\
  packets_read o = 301%nat /\
  List.length (parsed o) = 300%nat /\
  (Z.to_nat ((766 + 2) / 3) < packets_read o)%nat /\
  event o = NO_MESSAGE.
Proof.
  cbv zeta.
  split; [reflexivity |]. split; [vm_compute; reflexivity |].
  split; [vm_compute; reflexivity |].
  split; [apply Nat.ltb_lt; vm_compute; reflexivity |].
  vm_compute. reflexivity.
Qed.

End USBReadFacts.

Module ReadFacts.

(** The stream has nothing available exactly when it is empty. *)
Lemma available_zero (stream : list Z) :
  StreamMIDI_Interface.available stream = 0 -> stream = [].
Proof.
  unfold StreamMIDI_Interface.available.
  destruct stream; [reflexivity | cbn [List.length]; lia].
Qed.

(** C4: when a transport has no input (the stream reports zero bytes
    available, or the packet that [readUSBPacket] yields has a zero first
    byte), [read()] returns [NO_MESSAGE], hands nothing to the parser and
    leaves the parser as it was.  The call does not wait: it returns after
    no byte read from the stream and after at most one packet read. *)
Theorem read_no_input
  (SParser : Type) (sparse : SParser -> Z -> MIDIReadEvent * SParser)
  (UParser : Type)
  (uparse : UParser -> MIDIUSBPacket_t -> MIDI_read_t * UParser)
  (SYSEX_BUFFER_SIZE : Z) :
  (forall (stream : list Z) (parser : SParser),
     StreamMIDI_Interface.available stream = 0 ->
     let o := StreamMIDI_Interface.read sparse stream parser in
     StreamMIDI_Interface.event o = NO_MESSAGE /\
     StreamMIDI_Interface.parsed o = [] /\
     StreamMIDI_Interface.parser_after o = parser /\
     StreamMIDI_Interface.bytes_read o = 0%nat /\
     StreamMIDI_Interface.pending o = stream) /\
  (forall (rx : list MIDIUSBPacket_t) (parser : UParser),
     pkt0 (fst (USBMIDI_Interface.readUSBPacket rx)) = 0 ->
     let o := USBMIDI_Interface.read uparse SYSEX_BUFFER_SIZE rx parser in
     USBMIDI_Interface.event o = NO_MESSAGE /\
     USBMIDI_Interface.parsed o = [] /\
     USBMIDI_Interface.parser_after o = parser /\
     (USBMIDI_Interface.packets_read o <= 1)%nat /\
     (USBMIDI_Interface.pending o = rx \/
      USBMIDI_Interface.pending o =
        snd (USBMIDI_Interface.readUSBPacket rx))).
Proof.
  split.
  - intros stream parser Havail. apply available_zero in Havail. subst.
    cbn. repeat split.
  - intros rx parser Hzero.
    pose proof (USBReadFacts.read_for_no_input UParser uparse
                  SYSEX_BUFFER_SIZE rx 0 parser 0%nat [] Hzero) as H.
    cbv zeta in H |- *. unfold USBMIDI_Interface.read. tauto.
Qed.

(** The theorem at the parsers of the specification, fresh, with an empty
    stream and with a receive queue that starts with a zero packet. *)
Lemma read_no_input_witness :
  StreamMIDI_Interface.event
    (StreamMIDI_Interface.read (SerialMIDI_Parser.parse 128) []
       SerialMIDI_Parser.init) = NO_MESSAGE /\
  USBMIDI_Interface.event
    (USBMIDI_Interface.read (USBMIDI_Parser.parse 128) 128
       [mkPacket 0 0 0 0; mkPacket 0x09 0x90 60 100]
       USBMIDI_Parser.init) = NO_MESSAGE.
Proof.
  pose proof (read_no_input _ (SerialMIDI_Parser.parse 128)
                _ (USBMIDI_Parser.parse 128) 128) as [Hs Hu].
  split.
  - apply (Hs [] SerialMIDI_Parser.init). reflexivity.
  - apply (Hu [mkPacket 0 0 0 0; mkPacket 0x09 0x90 60 100]
              USBMIDI_Parser.init).
    reflexivity.
Defined.

(** The bound at a SysEx buffer of 128 bytes and a queue of fifty packets
    that complete no message: 43 packets are read, 7 stay pending. *)
Lemma read_bounded_witness :
  let o := USBMIDI_Interface.read (USBMIDI_Parser.parse 128) 128
             (repeat (mkPacket 0x01 0 0 0) 50) USBMIDI_Parser.init in
  USBMIDI_Interface.event o = NO_MESSAGE /\
  USBMIDI_Interface.packets_read o = 43%nat /\
  List.length (USBMIDI_Interface.pending o) = 7%nat.
Proof.
  pose proof (USBReadFacts.read_bounded _ (USBMIDI_Parser.parse 128) 128
                ltac:(split; [lia | vm_compute; discriminate])
                (repeat (mkPacket 0x01 0 0 0) 50) USBMIDI_Parser.init)
    as (_ & _ & Hq).
  cbv zeta. rewrite (Hq USBMIDI_Parser.init).
  - repeat split.
  - change (Z.to_nat ((128 + 2) / 3)) with 43%nat.
    change (repeat (mkPacket 0x01 0 0 0) 50)
      with (repeat (mkPacket 0x01 0 0 0) 43
              ++ repeat (mkPacket 0x01 0 0 0) 7).
    generalize (repeat (mkPacket 0x01 0 0 0) 7). intros rest.
    vm_compute. reflexivity.
Defined.

End ReadFacts.

(** ** Sending and parsing a channel message *)

Module RoundTripFacts.




(** No parser at all can give back the cable of a message sent on the
    serial transport: neither [sendImpl] writes it, so messages that
    differ in the cable only are the same bytes on the wire. *)
Lemma serial_cable_lost (decode : list Z -> option ChannelMessage)
  (h d1 d2 : Z) :
  ~ (forall cn, 0 <= cn < 16 ->
       decode (StreamMIDI_Interface.sendImpl h d1 d2 cn) =
       Some (mkChannelMessage h d1 d2 cn)).
Proof.
  intros H.
  pose proof (H 0 ltac:(lia)) as H0. pose proof (H 1 ltac:(lia)) as H1.
  unfold StreamMIDI_Interface.sendImpl in *. rewrite H0 in H1.
  discriminate H1.
Qed.





End RoundTripFacts.

(** ** The parsers of the specification on its test sequences *)

Module ParserExamples.
Import SerialMIDI_Parser.

(** Section 8, running status: two Note On messages, the second without
    its status byte. *)
Example running_status :
  let (events, p) := parse_bytes 128 init [0x90; 0x40; 0x7F; 0x41; 0x7F] in
  events = [NO_MESSAGE; NO_MESSAGE; CHANNEL_MESSAGE; NO_MESSAGE;
            CHANNEL_MESSAGE] /\
  getChannelMessage p = mkChannelMessage 0x90 0x41 0x7F 0 /\
  getChannelMessage (snd (parse_bytes 128 init [0x90; 0x40; 0x7F])) =
    mkChannelMessage 0x90 0x40 0x7F 0.
Proof. cbn. repeat split. Qed.

(** Section 8, real-time interleaving: the clock byte is delivered first
    and the Note On around it is not disturbed. *)
Example realtime_interleaving :
  let (events, p) := parse_bytes 128 init [0x90; 0xF8; 0x40; 0x7F] in
  events = [NO_MESSAGE; REALTIME_MESSAGE; NO_MESSAGE; CHANNEL_MESSAGE] /\
  getChannelMessage p = mkChannelMessage 0x90 0x40 0x7F 0.
Proof. cbn. repeat split. Qed.

(** Section 8, SysEx chunking, with a buffer of four bytes: six body bytes
    come as a chunk of four and a remainder of two. *)
Example sysex_chunking :
  let (events, p) := parse_bytes 4 init [0xF0; 1; 2; 3; 4; 5; 6; 0xF7] in
  events = [NO_MESSAGE; NO_MESSAGE; NO_MESSAGE; NO_MESSAGE; SYSEX_CHUNK;
            NO_MESSAGE; NO_MESSAGE; SYSEX_MESSAGE] /\
  sysexmsg p = [5; 6] /\
  sysexmsg (snd (parse_bytes 4 init [0xF0; 1; 2; 3; 4])) = [1; 2; 3; 4].
Proof. cbn. repeat split. Qed.

(** Section 8, resynchronization: a data byte without running status is
    dropped and the message after it is parsed. *)
Example resynchronization :
  let (events, p) := parse_bytes 128 init [0x40; 0xC1; 0x05] in
  events = [NO_MESSAGE; NO_MESSAGE; CHANNEL_MESSAGE] /\
  getChannelMessage p = mkChannelMessage 0xC1 0x05 0 0.
Proof. cbn. repeat split. Qed.

(** Reading from a stream stops at the first completed message and leaves
    the rest of the stream waiting. *)
Example read_stops_at_message :
  let o := StreamMIDI_Interface.read (parse 128) [0x90; 0x40; 0x7F; 0x41]
             init in
  StreamMIDI_Interface.event o = CHANNEL_MESSAGE /\
  StreamMIDI_Interface.pending o = [0x41] /\
  StreamMIDI_Interface.bytes_read o = 3%nat.
Proof. cbn. repeat split. Qed.

(** A SysEx message sent in packets and parsed packet by packet comes
    back whole, on the cable it was sent on. *)
Example usb_sysex :
  let mem := fun a => nth (Z.to_nat a) [0xF0; 1; 2; 3; 4; 0xF7] 0 in
  let packets := USBMIDI_Interface.sendImpl_sysex mem 0 6 3 in
  let o := USBMIDI_Interface.read (USBMIDI_Parser.parse 128) 128 packets
             USBMIDI_Parser.init in
  USBMIDI_Interface.event o = SYSEX_MESSAGE /\
  USBMIDI_Parser.sysexmsg (USBMIDI_Interface.parser_after o) = [1; 2; 3; 4] /\
  USBMIDI_Parser.sysexcable (USBMIDI_Interface.parser_after o) = 3 /\
  USBMIDI_Interface.packets_read o = 2%nat.
Proof. vm_compute. repeat split. Qed.

End ParserExamples.

(* ========================================================================== *)
(** * Further properties of the code *)

(** ** ChannelMessage: setters and constructor *)

Module ChannelMessageSetters.
Import ChannelMessage.

(** A boolean property checked on all bytes and all nibbles holds for
    every byte and every nibble. *)
Lemma forall_u8_u4 (P : Z -> Z -> bool) :
  forallb (fun b => forallb (P b) all_u4) all_u8 = true ->
  forall b c, is_u8 b -> 0 <= c < 16 -> P b c = true.
Proof.
  intros Hall b c Hb Hc.
  apply (forall_u4 (P b)); [| exact Hc].
  apply (forall_u8 (fun b => forallb (P b) all_u4) Hall b Hb).
Qed.

(** The same for two bytes. *)
Lemma forall_u8_u8 (P : Z -> Z -> bool) :
  forallb (fun b => forallb (P b) all_u8) all_u8 = true ->
  forall b c, is_u8 b -> is_u8 c -> P b c = true.
Proof.
  intros Hall b c Hb Hc.
  apply (forall_u8 (P b)); [| exact Hc].
  apply (forall_u8 (fun b => forallb (P b) all_u8) Hall b Hb).
Qed.

(** The header after [setChannel] depends on the low eight bits of the
    header before. *)
Lemma header_setChannel (m : ChannelMessage) (c : Z) :
  header (setChannel m c) = u8 (Z.lor (u8 (Z.land (u8 (header m)) 0xF0)) c).
Proof.
  unfold setChannel. cbn [header].
  rewrite (land_u8 (header m) 0xF0) by (unfold is_u8; lia). reflexivity.
Qed.

(** The header after [setMessageType] depends on the low eight bits of the
    header before. *)
Lemma header_setMessageType (m : ChannelMessage) (t : Z) :
  header (setMessageType m t) =
  u8 (Z.lor (u8 (Z.land (u8 (header m)) 0x0F)) (Z.land (u8 t) 0xF0)).
Proof.
  unfold setMessageType. cbn [header].
  rewrite (land_u8 (header m) 0x0F) by (unfold is_u8; lia). reflexivity.
Qed.

(** The two nibbles of the header after [setChannel]. *)
Lemma setChannel_nibbles (m : ChannelMessage) (c : Z) :
  0 <= c < 16 ->
  getChannel (setChannel m c) = c /\
  getMessageType (setChannel m c) = getMessageType m.
Proof.
  intros Hc. unfold getChannel, getMessageType.
  rewrite header_setChannel.
  pose proof (forall_u8_u4
    (fun b c =>
       (Z.land (u8 (Z.lor (u8 (Z.land b 0xF0)) c)) 0x0F =? c) &&
       (Z.land (u8 (Z.lor (u8 (Z.land b 0xF0)) c)) 0xF0 =? Z.land b 0xF0))
    ltac:(vm_compute; reflexivity) (u8 (header m)) c
    (u8_range _) Hc) as H.
  cbv beta in H. rewrite andb_true_iff, !Z.eqb_eq in H.
  destruct H as [H1 H2]. rewrite H1, H2. split; [reflexivity |].
  symmetry. apply land_u8. unfold is_u8. lia.
Qed.

(** The two nibbles of the header after [setMessageType]. *)
Lemma setMessageType_nibbles (m : ChannelMessage) (t : Z) :
  getMessageType (setMessageType m t) = Z.land t 0xF0 /\
  getChannel (setMessageType m t) = getChannel m.
Proof.
  unfold getChannel, getMessageType. rewrite header_setMessageType.
  pose proof (forall_u8_u8
    (fun b t =>
       (Z.land (u8 (Z.lor (u8 (Z.land b 0x0F)) (Z.land t 0xF0))) 0xF0
          =? Z.land t 0xF0) &&
       (Z.land (u8 (Z.lor (u8 (Z.land b 0x0F)) (Z.land t 0xF0))) 0x0F
          =? Z.land b 0x0F))
    ltac:(vm_compute; reflexivity) (u8 (header m)) (u8 t)
    (u8_range _) (u8_range _)) as H.
  cbv beta in H. rewrite andb_true_iff, !Z.eqb_eq in H.
  destruct H as [H1 H2]. rewrite H1, H2.
  split; symmetry; apply land_u8; unfold is_u8; lia.
Qed.

(** X1: [setChannel] gives the message the channel it is passed and changes
    nothing else: [getChannel] returns the new channel, and the message
    type, the validity of the header, the number of data bytes, both data
    bytes and the cable are as before. *)
Theorem setChannel_getChannel (m : ChannelMessage) (c : Z) :
  0 <= c < 16 ->
  getChannel (setChannel m c) = c /\
  getMessageType (setChannel m c) = getMessageType m /\
  hasValidHeader (setChannel m c) = hasValidHeader m /\
  hasTwoDataBytes (setChannel m c) = hasTwoDataBytes m /\
  data1 (setChannel m c) = data1 m /\
  data2 (setChannel m c) = data2 m /\
  cable (setChannel m c) = cable m.
Proof.
  intros Hc. destruct (setChannel_nibbles m c Hc) as [Hch Hty].
  unfold hasValidHeader, hasTwoDataBytes. cbv zeta. rewrite Hty.
  repeat split; assumption.
Qed.

Lemma setChannel_getChannel_witness :
  getChannel (setChannel (mkChannelMessage 0x93 60 100 2) 7) = 7.
Proof.
  apply (setChannel_getChannel (mkChannelMessage 0x93 60 100 2) 7). lia.
Defined.

(** X2: [setMessageType] gives the message the high nibble of the type it is
    passed (the low nibble of the argument is dropped) and changes
    nothing else: the channel, both data bytes and the cable are as
    before. *)
Theorem setMessageType_getMessageType (m : ChannelMessage) (t : Z) :
  getMessageType (setMessageType m t) = Z.land t 0xF0 /\
  getChannel (setMessageType m t) = getChannel m /\
  data1 (setMessageType m t) = data1 m /\
  data2 (setMessageType m t) = data2 m /\
  cable (setMessageType m t) = cable m.
Proof.
  destruct (setMessageType_nibbles m t) as [Hty Hch].
  repeat split; assumption.
Qed.

(** A byte is its two nibbles. *)
Lemma nibbles_inj (x y : Z) :
  is_u8 x -> is_u8 y ->
  Z.land x 0xF0 = Z.land y 0xF0 -> Z.land x 0x0F = Z.land y 0x0F -> x = y.
Proof.
  intros Hx Hy Hhi Hlo.
  assert (Hsplit : forall z, is_u8 z ->
            z = Z.lor (Z.land z 0xF0) (Z.land z 0x0F)).
  { intros z Hz. apply Z.eqb_eq.
    apply (forall_u8
             (fun z => z =? Z.lor (Z.land z 0xF0) (Z.land z 0x0F))
             ltac:(vm_compute; reflexivity) z Hz). }
  rewrite (Hsplit x Hx), (Hsplit y Hy), Hhi, Hlo. reflexivity.
Qed.

(** Two messages with the same message type, channel, data bytes and
    cable, and headers that are bytes, are the same message. *)
Lemma message_ext (a b : ChannelMessage) :
  is_u8 (header a) -> is_u8 (header b) ->
  getMessageType a = getMessageType b -> getChannel a = getChannel b ->
  data1 a = data1 b -> data2 a = data2 b -> cable a = cable b -> a = b.
Proof.
  intros Ha Hb Hty Hch H1 H2 Hcn.
  destruct a as [ha a1 a2 ac], b as [hb b1 b2 bc]. cbn in *.
  rewrite (nibbles_inj ha hb Ha Hb Hty Hch). congruence.
Qed.

(** X3: The setters compose as assignments to two independent fields: the
    channel and the message type can be set in either order, and of two
    calls of the same setter the last one counts. *)
Theorem setters_compose (m : ChannelMessage) (t t' c c' : Z) :
  0 <= c < 16 -> 0 <= c' < 16 ->
  setChannel (setMessageType m t) c = setMessageType (setChannel m c) t /\
  setChannel (setChannel m c') c = setChannel m c /\
  setMessageType (setMessageType m t') t = setMessageType m t.
Proof.
  intros Hc Hc'.
  pose proof (setChannel_nibbles (setMessageType m t) c Hc) as [A1 A2].
  pose proof (setMessageType_nibbles (setChannel m c) t) as [B1 B2].
  pose proof (setChannel_nibbles m c Hc) as [C1 C2].
  pose proof (setMessageType_nibbles m t) as [D1 D2].
  pose proof (setChannel_nibbles (setChannel m c') c Hc) as [E1 E2].
  pose proof (setChannel_nibbles m c' Hc') as [F1 F2].
  pose proof (setMessageType_nibbles (setMessageType m t') t) as [G1 G2].
  pose proof (setMessageType_nibbles m t') as [I1 I2].
  repeat split; apply message_ext;
    try (cbn [header setChannel setMessageType]; apply u8_range);
    try reflexivity; congruence.
Qed.

Lemma setters_compose_witness :
  setChannel (setMessageType (mkChannelMessage 0x93 60 100 2) 0xB0) 7 =
  setMessageType (setChannel (mkChannelMessage 0x93 60 100 2) 7) 0xB0.
Proof.
  apply (setters_compose (mkChannelMessage 0x93 60 100 2) 0xB0 0 7 0);
    lia.
Defined.

(** X4: The constructor from a message type and a channel: for each of the
    seven channel-voice types and every channel 0-15 the header is the sum
    of the two, it is valid, and the getters return the arguments. *)
Theorem make_getters (type channel d1 d2 cn : Z) :
  In type [0x80; 0x90; 0xA0; 0xB0; 0xC0; 0xD0; 0xE0] ->
  0 <= channel < 16 ->
  let m := make type channel d1 d2 cn in
  header m = type + channel /\
  hasValidHeader m = true /\
  getMessageType m = type /\
  getChannel m = channel /\
  data1 m = d1 /\ data2 m = d2 /\ cable m = cn.
Proof.
  intros Htype Hch. cbv zeta.
  assert (Ht8 : is_u8 type).
  { unfold is_u8. cbn in Htype. intuition lia. }
  pose proof (forall_u8_u4
    (fun t c =>
       implb (mem_Z t [0x80; 0x90; 0xA0; 0xB0; 0xC0; 0xD0; 0xE0])
         ((u8 (Z.lor (u8 t) c) =? t + c) &&
          hasValidHeader (make t c 0 0 0) &&
          (getMessageType (make t c 0 0 0) =? t) &&
          (getChannel (make t c 0 0 0) =? c)))
    ltac:(vm_compute; reflexivity) type channel Ht8 Hch) as H.
  cbv beta in H.
  apply ChannelMessageFacts.mem_Z_In in Htype. rewrite Htype in H.
  cbn [implb] in H. rewrite !andb_true_iff, !Z.eqb_eq in H.
  destruct H as [[[H1 H2] H3] H4].
  repeat split; assumption.
Qed.

Lemma make_getters_witness :
  header (make 0x90 3 60 100 0) = 0x93.
Proof.
  apply (make_getters 0x90 3 60 100 0); [cbn; tauto | lia].
Defined.

(** X5: [hasTwoDataBytes()] answers for valid headers only: for a header that
    is not a status byte (below 0x80) it returns true, for a system
    message header (0xF0 and above) false, and [hasValidHeader()] is false
    for both. *)
Theorem hasTwoDataBytes_invalid_header (m : ChannelMessage) :
  is_u8 (header m) ->
  (header m < 0x80 ->
   hasTwoDataBytes m = true /\ hasValidHeader m = false) /\
  (0xF0 <= header m ->
   hasTwoDataBytes m = false /\ hasValidHeader m = false).
Proof.
  intros Hh.
  pose proof (forall_u8
    (fun h =>
       implb (h <? 0x80)
         (hasTwoDataBytes (mkChannelMessage h 0 0 0) &&
          negb (hasValidHeader (mkChannelMessage h 0 0 0))) &&
       implb (0xF0 <=? h)
         (negb (hasTwoDataBytes (mkChannelMessage h 0 0 0)) &&
          negb (hasValidHeader (mkChannelMessage h 0 0 0))))
    ltac:(vm_compute; reflexivity) (header m) Hh) as H.
  cbv beta in H. apply andb_true_iff in H as [Hlow Hhigh].
  change (hasTwoDataBytes (mkChannelMessage (header m) 0 0 0))
    with (hasTwoDataBytes m) in *.
  change (hasValidHeader (mkChannelMessage (header m) 0 0 0))
    with (hasValidHeader m) in *.
  split.
  - intros Hlt. apply Z.ltb_lt in Hlt. rewrite Hlt in Hlow.
    cbn [implb] in Hlow. apply andb_true_iff in Hlow as [H1 H2].
    apply negb_true_iff in H2. auto.
  - intros Hge. apply Z.leb_le in Hge. rewrite Hge in Hhigh.
    cbn [implb] in Hhigh. apply andb_true_iff in Hhigh as [H1 H2].
    apply negb_true_iff in H1, H2. auto.
Qed.

Lemma hasTwoDataBytes_invalid_header_witness :
  hasTwoDataBytes (mkChannelMessage 0x40 0 0 0) = true /\
  hasValidHeader (mkChannelMessage 0x40 0 0 0) = false.
Proof.
  apply (hasTwoDataBytes_invalid_header (mkChannelMessage 0x40 0 0 0)).
  - unfold is_u8. cbn. lia.
  - cbn. lia.
Defined.

End ChannelMessageSetters.

(** ** SysExMessage: equality *)

Module SysExMessageEquality.
Import SysExMessage.




End SysExMessageEquality.

(** ** USBMIDI_Interface: packets on the wire *)

Module USBPacketFacts.
Import USBMIDI_Interface.

(** Joining a value below [2 ^ k] with a value shifted by [k] bits is
    adding them. *)
Lemma lor_shiftl_add (a b k : Z) :
  0 <= k -> 0 <= a < 2 ^ k -> Z.lor a (Z.shiftl b k) = a + b * 2 ^ k.
Proof.
  intros Hk Ha.
  assert (Hdisj : Z.land a (Z.shiftl b k) = 0).
  { rewrite <- (Z.mod_small a (2 ^ k)) by exact Ha.
    rewrite <- Z.land_ones by exact Hk.
    apply Z.bits_inj'. intros n Hn.
    rewrite !Z.land_spec, Z.bits_0.
    destruct (Z.ltb_spec n k) as [Hlt | Hge].
    - rewrite Z.shiftl_spec_low by exact Hlt. apply andb_false_r.
    - rewrite Z.ones_spec_high by lia. rewrite andb_false_r. reflexivity. }
  rewrite <- Z.lxor_lor by exact Hdisj.
  rewrite <- Z.add_nocarry_lxor by exact Hdisj.
  rewrite Z.shiftl_mul_pow2 by exact Hk. reflexivity.
Qed.

(** The first byte of a written packet, as arithmetic. *)
Lemma pkt0_arith (cn cin d0 d1 d2 : Z) :
  0 <= cin < 16 ->
  pkt0 (writeUSBPacket cn cin d0 d1 d2) = (cin + cn * 16) mod 256.
Proof.
  intros Hcin. unfold writeUSBPacket, u8. cbn [pkt0].
  rewrite Z.lor_comm, (lor_shiftl_add cin cn 4) by (cbn; lia).
  reflexivity.
Qed.

(** X7: The cable number is cut to a nibble: the packet written for cable
    [cn] carries cable [cn mod 16], and the code index number passed, so
    that cable numbers that differ by sixteen write the same packet. *)
Theorem writeUSBPacket_cable_mod16 (cn cin d0 d1 d2 : Z) :
  0 <= cn -> 0 <= cin < 16 ->
  CN (writeUSBPacket cn cin d0 d1 d2) = cn mod 16 /\
  CIN (writeUSBPacket cn cin d0 d1 d2) = cin /\
  writeUSBPacket (cn + 16) cin d0 d1 d2 = writeUSBPacket cn cin d0 d1 d2.
Proof.
  intros Hcn Hcin. split; [| split].
  - unfold CN. rewrite pkt0_arith by exact Hcin.
    rewrite Z.shiftr_div_pow2 by lia. change (2 ^ 4) with 16.
    pose proof (Z.mod_pos_bound cn 16 ltac:(lia)) as Hr.
    pose proof (Z.div_mod cn 16 ltac:(lia)) as Hdm.
    replace (cin + cn * 16)
      with (cin + (cn mod 16) * 16 + (cn / 16) * 256) by lia.
    rewrite Z.mod_add by lia.
    rewrite (Z.mod_small (cin + cn mod 16 * 16) 256) by lia.
    rewrite Z.div_add by lia. rewrite (Z.div_small cin 16) by lia.
    reflexivity.
  - apply USBSendFacts.CIN_writeUSBPacket, Hcin.
  - pose proof (pkt0_arith (cn + 16) cin d0 d1 d2 Hcin) as H16.
    pose proof (pkt0_arith cn cin d0 d1 d2 Hcin) as H0.
    replace ((cin + (cn + 16) * 16) mod 256)
      with ((cin + cn * 16) mod 256) in H16.
    + unfold writeUSBPacket in *. cbn [pkt0] in *. rewrite H16, H0.
      reflexivity.
    + replace (cin + (cn + 16) * 16) with (cin + cn * 16 + 1 * 256) by lia.
      rewrite Z.mod_add by lia. reflexivity.
Qed.

Lemma writeUSBPacket_cable_mod16_witness :
  CN (writeUSBPacket 18 0x9 0x90 60 100) = 2.
Proof.
  apply (writeUSBPacket_cable_mod16 18 0x9 0x90 60 100); lia.
Defined.

(** X8: The two ways of writing a packet agree: for a cable number and a code
    index number that are nibbles and data that are bytes, the four bytes
    of the word packed for Teensy 3.x, lowest first, are the packet
    written on boards with [USBCON]. *)
Theorem writeUSBPacket_packed_agrees (cn cin d0 d1 d2 : Z) :
  0 <= cn < 16 -> 0 <= cin < 16 -> is_u8 d0 -> is_u8 d1 -> is_u8 d2 ->
  unpack (writeUSBPacket_packed cn cin d0 d1 d2) =
  writeUSBPacket cn cin d0 d1 d2.
Proof.
  unfold is_u8. intros Hcn Hcin H0 H1 H2.
  assert (Hword : writeUSBPacket_packed cn cin d0 d1 d2 =
            cin + cn * 16 + d0 * 256 + d1 * 65536 + d2 * 16777216).
  { unfold writeUSBPacket_packed.
    rewrite (Z.lor_comm (Z.shiftl cn 4) cin).
    rewrite (lor_shiftl_add cin cn 4) by (cbn; lia).
    rewrite (lor_shiftl_add _ d0 8) by (cbn; lia).
    rewrite (lor_shiftl_add _ d1 16) by (cbn; lia).
    rewrite (lor_shiftl_add _ d2 24) by (cbn; lia).
    change (2 ^ 4) with 16. change (2 ^ 8) with 256.
    change (2 ^ 16) with 65536. change (2 ^ 24) with 16777216.
    change (2 ^ 32) with 4294967296.
    apply Z.mod_small. lia. }
  rewrite Hword. unfold unpack, writeUSBPacket.
  cbn [pkt0 pkt1 pkt2 pkt3]. unfold u8. rewrite Z.lor_comm, (lor_shiftl_add cin cn 4) by (cbn; lia). change (2 ^ 4) with 16.
  change 255 with (Z.ones 8). rewrite !Z.land_ones by lia.
  rewrite !Z.shiftr_div_pow2 by lia.
  change (2 ^ 8) with 256. change (2 ^ 16) with 65536.
  change (2 ^ 24) with 16777216.
  f_equal.
  - rewrite <- !Z.add_assoc.
    replace (cn * 16 + (d0 * 256 + (d1 * 65536 + d2 * 16777216)))
      with (cn * 16 + (d0 + d1 * 256 + d2 * 65536) * 256) by lia.
    rewrite Z.add_assoc, Z.mod_add by lia. reflexivity.
  - replace (cin + cn * 16 + d0 * 256 + d1 * 65536 + d2 * 16777216)
      with (cin + cn * 16 + (d0 + d1 * 256 + d2 * 65536) * 256) by lia.
    rewrite Z.div_add, (Z.div_small (cin + cn * 16) 256) by lia.
    replace (0 + (d0 + d1 * 256 + d2 * 65536))
      with (d0 + (d1 + d2 * 256) * 256) by lia.
    rewrite Z.mod_add by lia. apply Z.mod_small. lia.
  - replace (cin + cn * 16 + d0 * 256 + d1 * 65536 + d2 * 16777216)
      with (cin + cn * 16 + d0 * 256 + (d1 + d2 * 256) * 65536) by lia.
    rewrite Z.div_add, (Z.div_small (cin + cn * 16 + d0 * 256) 65536)
      by lia.
    replace (0 + (d1 + d2 * 256)) with (d1 + d2 * 256) by lia.
    rewrite Z.mod_add by lia. apply Z.mod_small. lia.
  - rewrite Z.div_add,
      (Z.div_small (cin + cn * 16 + d0 * 256 + d1 * 65536) 16777216)
      by lia.
    apply Z.mod_small. lia.
Qed.

Lemma writeUSBPacket_packed_agrees_witness :
  unpack (writeUSBPacket_packed 2 0x9 0x93 60 100) =
  mkPacket 0x29 0x93 60 100.
Proof.
  apply (writeUSBPacket_packed_agrees 2 0x9 0x93 60 100);
    unfold is_u8; lia.
Defined.

(** The SysEx bytes of a packet written with one of the four SysEx code
    index numbers. *)
Lemma sysex_bytes_writeUSBPacket (cn cin d0 d1 d2 : Z) :
  In cin [0x4; 0x5; 0x6; 0x7] ->
  sysex_bytes (writeUSBPacket cn cin d0 d1 d2) =
  firstn (if cin =? 0x5 then 1 else if cin =? 0x6 then 2 else 3)
    [d0; d1; d2].
Proof.
  intros Hcin. unfold sysex_bytes, sysex_count.
  rewrite USBSendFacts.CIN_writeUSBPacket by (cbn in Hcin; intuition lia).
  cbn in Hcin.
  destruct Hcin as [<- | [<- | [<- | [<- | []]]]]; reflexivity.
Qed.

(** X9: Both transports send the same SysEx bytes: the bytes that the code
    index numbers of the USB packets mark as SysEx bytes, packet after
    packet, are the bytes written to the serial stream, which are the
    [length] bytes of the message.  No padding byte is marked, and no
    length has to be known to cut the padding off. *)
Theorem sendImpl_sysex_same_bytes (mem : memory) (data : Z) (n : nat)
  (cn cn' : Z) :
  List.concat (map sysex_bytes (sendImpl_sysex mem data n cn)) =
  StreamMIDI_Interface.sendImpl_sysex mem data n cn'.
Proof.
  unfold StreamMIDI_Interface.sendImpl_sysex. revert data.
  induction n as [| | | | j IH] using USBSysExFacts.nat_ind3; intros data.
  - reflexivity.
  - unfold sendImpl_sysex. cbn [sendImpl_while app map List.concat].
    rewrite sysex_bytes_writeUSBPacket by (cbn; tauto).
    cbn. rewrite Z.add_0_r. reflexivity.
  - unfold sendImpl_sysex. cbn [sendImpl_while app map List.concat].
    rewrite sysex_bytes_writeUSBPacket by (cbn; tauto).
    cbn. rewrite Z.add_0_r. reflexivity.
  - unfold sendImpl_sysex. cbn [sendImpl_while app map List.concat].
    rewrite sysex_bytes_writeUSBPacket by (cbn; tauto).
    cbn. rewrite Z.add_0_r. reflexivity.
  - rewrite USBSysExFacts.sendImpl_sysex_step.
    cbn [map List.concat].
    rewrite sysex_bytes_writeUSBPacket by (cbn; tauto).
    rewrite IH.
    change (S (S (S (S j)))) with (3 + S j)%nat.
    rewrite seq_app, map_app.
    change (seq 0 3) with [0; 1; 2]%nat.
    rewrite (USBSysExFacts.map_seq_shift _ 0 3 (S j)).
    cbn [map app firstn Z.eqb Pos.eqb]. rewrite Z.add_0_r.
    do 3 f_equal.
    apply map_ext. intros i. f_equal. lia.
Qed.

(** X10: Both transports send the same channel message bytes: the payload of
    the USB packet is the status byte [m | c] and the data bytes that the
    serial transport writes, followed by a zero in the one-data-byte
    variant. *)
Theorem sendImpl_channel_same_bytes (m c d1 d2 cn cn' : Z) :
  is_u8 m -> 0 <= c < 16 ->
  map payload (sendImpl m c d1 d2 cn) =
    [StreamMIDI_Interface.sendImpl (Z.lor m c) d1 d2 cn'] /\
  map payload (sendImpl1 m c d1 cn) =
    [StreamMIDI_Interface.sendImpl1 (Z.lor m c) d1 cn' ++ [0]].
Proof.
  intros Hm Hc.
  destruct (USBSendFacts.lor_channel_u8 m c Hm Hc) as [Hlor _].
  unfold sendImpl1, sendImpl, writeUSBPacket, payload.
  cbn [map pkt1 pkt2 pkt3]. rewrite Hlor. split; reflexivity.
Qed.

Lemma sendImpl_channel_same_bytes_witness :
  map payload (sendImpl 0x90 3 60 100 2) = [[0x93; 60; 100]].
Proof.
  apply (sendImpl_channel_same_bytes 0x90 3 60 100 2 0);
    unfold is_u8; lia.
Defined.

End USBPacketFacts.

(** ** Reading: what a call consumes and what it returns *)

Module ReadTraceFacts.

(** An event that is no message is [NO_MESSAGE]. *)
Lemma not_message (e : MIDIReadEvent) : is_message e = false -> e = NO_MESSAGE.
Proof. destruct e; (reflexivity || discriminate). Qed.

(** One more call that completes no message, in front. *)
Lemma quiet_then_cons (k : nat) (e : MIDIReadEvent) :
  (is_message e = true -> (1 <= k)%nat) ->
  NO_MESSAGE :: quiet_then k e = quiet_then (S k) e.
Proof.
  unfold quiet_then. intros Hk. destruct (is_message e).
  - specialize (Hk eq_refl). destruct k as [| k]; [lia |].
    cbn [Nat.sub repeat app]. rewrite Nat.sub_0_r. reflexivity.
  - reflexivity.
Qed.

Section USB.
Import USBMIDI_Interface.

Variable Parser : Type.
Variable parse : Parser -> MIDIUSBPacket_t -> MIDI_read_t * Parser.
Variable SYSEX_BUFFER_SIZE : Z.

Local Abbreviation B := ((SYSEX_BUFFER_SIZE + 2) / 3).

(** The counter after one more [++i]. *)
Lemma u8_succ (i : Z) (j : nat) :
  u8 (u8 (i + 1) + Z.of_nat j) = u8 (i + Z.of_nat (S j)).
Proof.
  unfold u8. rewrite Z.add_mod_idemp_l by lia. f_equal. lia.
Qed.

(** The loop of [read()] from any counter value: the packets it hands to
    the parser are a prefix [used] of the queue, each parsed while the
    counter was below the bound, and [NO_MESSAGE] is returned only when
    the queue is empty, at a packet with a zero first byte, or when the
    counter is not below the bound. *)
Lemma read_for_trace (rx : list MIDIUSBPacket_t) :
  forall (i : Z) (parser : Parser) (n : nat) (log : list MIDIUSBPacket_t),
    is_u8 i ->
    let o := read_for parse SYSEX_BUFFER_SIZE rx i parser n log in
    exists used,
      parsed o = log ++ used /\
      Forall (fun p => pkt0 p <> 0) used /\
      (rx = used ++ pending o \/
       exists z, pkt0 z = 0 /\ rx = used ++ z :: pending o) /\
      run parse parser used =
        (quiet_then (List.length used) (event o), parser_after o) /\
      (is_message (event o) = true -> (1 <= List.length used)%nat) /\
      (n + List.length used <= packets_read o <= n + List.length used + 1)%nat
      /\
      (forall j, (j < List.length used)%nat -> u8 (i + Z.of_nat j) < B) /\
      (event o = NO_MESSAGE ->
       (u8 (i + Z.of_nat (List.length used)) < B /\
        rx = used /\ pending o = []) \/
       (u8 (i + Z.of_nat (List.length used)) < B /\
        exists z, pkt0 z = 0 /\ rx = used ++ z :: pending o) \/
       (B <= u8 (i + Z.of_nat (List.length used)) /\
        rx = used ++ pending o)).
Proof.
  induction rx as [| p rx' IH]; intros i parser n log Hi; cbv zeta;
    cbn [USBMIDI_Interface.read_for].
  - exists [].
    assert (Hu : u8 (i + Z.of_nat 0) = i)
      by (rewrite Z.add_0_r; apply u8_id, Hi).
    cbn [List.length]. rewrite Hu.
    destruct (Z.ltb_spec i B) as [Hlt | Hge];
      cbn [parsed pending event parser_after packets_read run List.length app];
      rewrite app_nil_r;
      (split; [reflexivity |]); (split; [constructor |]);
      (split; [left; reflexivity |]); (split; [reflexivity |]);
      (split; [discriminate |]); (split; [lia |]);
      (split; [intros j Hj; lia |]); intros _.
    + left. auto.
    + right. right. auto.
  - assert (Hu : u8 (i + Z.of_nat 0) = i)
      by (rewrite Z.add_0_r; apply u8_id, Hi).
    destruct (Z.ltb_spec i B) as [Hlt | Hge].
    2:{ exists [].
        cbn [parsed pending event parser_after packets_read run
             List.length app].
        rewrite app_nil_r, Hu.
        split; [reflexivity |]. split; [constructor |].
        split; [left; reflexivity |]. split; [reflexivity |].
        split; [discriminate |]. split; [lia |].
        split; [intros j Hj; lia |]. intros _. right. right. auto. }
    destruct (Z.eqb_spec (pkt0 p) 0) as [Hz | Hnz].
    { exists [].
      cbn [parsed pending event parser_after packets_read run
           List.length app].
      rewrite app_nil_r, Hu.
      split; [reflexivity |]. split; [constructor |].
      split; [right; exists p; auto |]. split; [reflexivity |].
      split; [discriminate |]. split; [lia |].
      split; [intros j Hj; lia |]. intros _.
      right. left. split; [exact Hlt |]. exists p. auto. }
    destruct (parse parser p) as [r parser'] eqn:Hparse.
    destruct (is_message r) eqn:Hmsg.
    { exists [p].
      cbn [parsed pending event parser_after packets_read run
           List.length app].
      rewrite Hparse. unfold quiet_then. rewrite Hmsg.
      split; [reflexivity |]. split; [repeat constructor; exact Hnz |].
      split; [left; reflexivity |]. split; [reflexivity |].
      split; [intros _; lia |]. split; [lia |].
      split.
      - intros j Hj. replace j with 0%nat by lia. rewrite Hu. exact Hlt.
      - intros He. rewrite He in Hmsg. discriminate Hmsg. }
    specialize (IH (u8 (i + 1)) parser' (S n) (log ++ [p]) (u8_range _)).
    cbv zeta in IH.
    destruct IH as (used & Hparsed & Hnonzero & Hrx & Hrun & Hone & Hcount
                    & Hbelow & Hstop).
    exists (p :: used).
    split; [rewrite Hparsed, <- app_assoc; reflexivity |].
    split; [constructor; assumption |].
    split.
    { destruct Hrx as [Hrx | (z & Hz & Hrx)].
      - left. cbn [app]. f_equal. exact Hrx.
      - right. exists z. split; [exact Hz |]. cbn [app]. f_equal.
        exact Hrx. }
    split.
    { cbn [run List.length]. rewrite Hparse, Hrun.
      rewrite (not_message r Hmsg), quiet_then_cons by exact Hone.
      reflexivity. }
    split; [intros _; cbn [List.length]; lia |].
    split; [cbn [List.length]; lia |].
    split.
    { intros j Hj. destruct j as [| j]; [rewrite Hu; exact Hlt |].
      rewrite <- u8_succ. apply Hbelow. cbn [List.length] in Hj. lia. }
    intros He. specialize (Hstop He). cbn [List.length].
    rewrite <- u8_succ.
    destruct Hstop as [(Hc & Hall & Hpend) | [(Hc & z & Hz & Hall) |
                                              (Hc & Hall)]].
    + left. split; [exact Hc |]. split; [f_equal; exact Hall | exact Hpend].
    + right. left. split; [exact Hc |]. exists z.
      split; [exact Hz |]. cbn [app]. f_equal. exact Hall.
    + right. right. split; [exact Hc |]. cbn [app]. f_equal. exact Hall.
Qed.

(** X11: One call of [read()] on the USB transport hands the pending packets
    to the parser in the order they arrived, without skipping or
    repeating one, and never a packet whose first byte is zero.  What it
    consumed is what it parsed, and at most one packet more: the packet
    with a zero first byte that ended the call, which is dropped. *)
Theorem read_in_order (rx : list MIDIUSBPacket_t) (parser : Parser) :
  let o := read parse SYSEX_BUFFER_SIZE rx parser in
  Forall (fun p => pkt0 p <> 0) (parsed o) /\
  (rx = parsed o ++ pending o \/
   exists z, pkt0 z = 0 /\ rx = parsed o ++ z :: pending o) /\
  (List.length (parsed o) <= packets_read o <= List.length (parsed o) + 1)%nat.
Proof.
  destruct (read_for_trace rx 0 parser 0%nat [] ltac:(unfold is_u8; lia))
    as (used & Hparsed & Hnonzero & Hrx & _ & _ & Hcount & _).
  cbv zeta. unfold read. cbn [app] in Hparsed. rewrite Hparsed.
  repeat split; (assumption || lia).
Qed.

(** X12: One call of [read()] on the USB transport returns the first message
    the parser completes.  The parser is left as the calls of
    [parser.parse] on the packets handed to it leave it; each of these
    calls but the last returned [NO_MESSAGE], and the last returned the
    event of [read()] when that is a message; every packet was parsed
    while the loop counter was below the bound.  [NO_MESSAGE] is returned
    only when every packet of the queue has been parsed and the queue is
    empty, or at a packet with a zero first byte, or when the counter,
    the number of packets parsed as a byte, is not below the bound
    [(SYSEX_BUFFER_SIZE + 2) / 3]; in the last case the rest of the queue
    is left pending. *)
Theorem read_first_message (rx : list MIDIUSBPacket_t) (parser : Parser) :
  let o := read parse SYSEX_BUFFER_SIZE rx parser in
  let k := List.length (parsed o) in
  run parse parser (parsed o) = (quiet_then k (event o), parser_after o) /\
  (is_message (event o) = true -> parsed o <> []) /\
  (forall j, (j < k)%nat -> u8 (Z.of_nat j) < B) /\
  (event o = NO_MESSAGE ->
   (u8 (Z.of_nat k) < B /\ rx = parsed o /\ pending o = []) \/
   (u8 (Z.of_nat k) < B /\
    exists z, pkt0 z = 0 /\ rx = parsed o ++ z :: pending o) \/
   (B <= u8 (Z.of_nat k) /\ rx = parsed o ++ pending o)).
Proof.
  destruct (read_for_trace rx 0 parser 0%nat [] ltac:(unfold is_u8; lia))
    as (used & Hparsed & _ & _ & Hrun & Hone & _ & Hbelow & Hstop).
  cbv zeta. unfold read. cbn [app] in Hparsed. rewrite Hparsed.
  split; [exact Hrun |]. split; [| split; [exact Hbelow | exact Hstop]].
  intros Hmsg Hnil. specialize (Hone Hmsg). rewrite Hnil in Hone.
  cbn in Hone. lia.
Qed.

End USB.

Section Stream.
Import StreamMIDI_Interface.

Variable Parser : Type.
Variable parse : Parser -> Z -> MIDIReadEvent * Parser.

(** The loop of [read()]: the bytes it hands to the parser are the first
    [k] bytes of the stream. *)
Lemma read_while_trace (stream : list Z) :
  forall (parser : Parser) (n : nat) (log : list Z),
    let o := read_while parse stream parser n log in
    exists k,
      bytes_read o = (n + k)%nat /\
      (k <= List.length stream)%nat /\
      parsed o = log ++ map u8 (firstn k stream) /\
      pending o = skipn k stream /\
      run parse parser (map u8 (firstn k stream)) =
        (quiet_then k (event o), parser_after o) /\
      (is_message (event o) = true -> (1 <= k)%nat) /\
      (event o = NO_MESSAGE -> k = List.length stream).
Proof.
  induction stream as [| b stream' IH]; intros parser n log; cbv zeta;
    cbn [StreamMIDI_Interface.read_while].
  - exists 0%nat.
    cbn [bytes_read parsed pending event parser_after firstn skipn map run
         List.length].
    rewrite app_nil_r, Nat.add_0_r.
    repeat split; auto; discriminate.
  - destruct (parse parser (u8 b)) as [r parser'] eqn:Hparse.
    destruct (is_message r) eqn:Hmsg.
    + exists 1%nat.
      cbn [bytes_read parsed pending event parser_after firstn skipn map run
           List.length].
      rewrite Hparse. unfold quiet_then. rewrite Hmsg.
      repeat split; auto; try lia.
      intros ->. discriminate Hmsg.
    + specialize (IH parser' (S n) (log ++ [u8 b])). cbv zeta in IH.
      destruct IH as (k & Hn & Hk & Hparsed & Hpending & Hrun & Hone & Hall).
      exists (S k).
      cbn [firstn skipn map run List.length].
      rewrite Hparse, Hrun, Hn, Hparsed, Hpending, <- app_assoc.
      rewrite (not_message r Hmsg), quiet_then_cons by exact Hone.
      repeat split; auto; try lia;
        try (intros He; rewrite (Hall He); reflexivity).
Qed.

(** X13: One call of [read()] on the serial transport takes the bytes off the
    stream in order and hands each, as a byte, to the parser; it stops at
    the first message the parser completes and returns it, and what is
    left of the stream stays there for the next call.  It does not stop
    before: every call of the parser but the last returned [NO_MESSAGE],
    and [read()] returns [NO_MESSAGE] only when it has taken every byte
    off the stream. *)
Theorem read_first_message_serial (stream : list Z) (parser : Parser) :
  let o := read parse stream parser in
  parsed o = map u8 (firstn (bytes_read o) stream) /\
  pending o = skipn (bytes_read o) stream /\
  (bytes_read o <= List.length stream)%nat /\
  run parse parser (parsed o) =
    (quiet_then (bytes_read o) (event o), parser_after o) /\
  (is_message (event o) = true -> (1 <= bytes_read o)%nat) /\
  (event o = NO_MESSAGE ->
   bytes_read o = List.length stream /\ pending o = []).
Proof.
  destruct (read_while_trace stream parser 0%nat [])
    as (k & Hn & Hk & Hparsed & Hpending & Hrun & Hone & Hall).
  cbv zeta. unfold read. cbn [app Nat.add] in Hparsed, Hn.
  rewrite Hn, Hparsed.
  split; [reflexivity |]. split; [exact Hpending |].
  split; [exact Hk |]. split; [exact Hrun |]. split; [exact Hone |].
  intros He. specialize (Hall He). split; [exact Hall |].
  rewrite Hpending, Hall. apply skipn_all.
Qed.

(** X14: The serial [read()] has no bound on the work of one call: it returns
    [NO_MESSAGE] only when it has taken every byte off the stream and the
    parser has completed no message on any of them. *)
Theorem read_drains_stream (stream : list Z) (parser : Parser) :
  let o := read parse stream parser in
  event o = NO_MESSAGE ->
  pending o = [] /\
  bytes_read o = List.length stream /\
  parsed o = map u8 stream /\
  fst (run parse parser (map u8 stream)) =
    repeat NO_MESSAGE (List.length stream).
Proof.
  destruct (read_while_trace stream parser 0%nat [])
    as (k & Hn & Hk & Hparsed & Hpending & Hrun & _ & Hall).
  cbv zeta. unfold read. intros He. specialize (Hall He). subst k.
  cbn [app Nat.add] in Hparsed, Hn.
  rewrite firstn_all in Hparsed, Hrun. rewrite skipn_all in Hpending.
  rewrite Hrun, He. repeat split; assumption.
Qed.

End Stream.

(** The serial [read()] at the parser of the specification and a stream
    of four data bytes without a status byte: all four are consumed. *)
Lemma read_drains_stream_witness :
  StreamMIDI_Interface.pending
    (StreamMIDI_Interface.read (SerialMIDI_Parser.parse 128) [1; 2; 3; 4]
       SerialMIDI_Parser.init) = [].
Proof.
  apply (read_drains_stream _ (SerialMIDI_Parser.parse 128) [1; 2; 3; 4]
           SerialMIDI_Parser.init).
  reflexivity.
Defined.

(** The theorem at the parser of the specification and a queue of two
    packets it ignores followed by a Note On: the call parses all three
    and returns the Note On. *)
Lemma read_first_message_witness :
  USBMIDI_Interface.parsed
    (USBMIDI_Interface.read (USBMIDI_Parser.parse 128) 128
       [mkPacket 0x01 0 0 0; mkPacket 0x01 0 0 0; mkPacket 0x09 0x90 60 100]
       USBMIDI_Parser.init) <> [].
Proof.
  apply (read_first_message (USBMIDI_Parser.t) (USBMIDI_Parser.parse 128)
           128).
  reflexivity.
Defined.

(** The theorem at the parser of the specification and a stream that
    holds a Note On and the first byte of the next message: the call
    reads three bytes and leaves the fourth. *)
Lemma read_first_message_serial_witness :
  (1 <= StreamMIDI_Interface.bytes_read
          (StreamMIDI_Interface.read (SerialMIDI_Parser.parse 128)
             [0x90; 0x40; 0x7F; 0x41]%Z SerialMIDI_Parser.init))%nat.
Proof.
  apply (read_first_message_serial _ (SerialMIDI_Parser.parse 128)
           [0x90; 0x40; 0x7F; 0x41] SerialMIDI_Parser.init).
  reflexivity.
Defined.

End ReadTraceFacts.

(** ** MIDIRotaryEncoder: steps sent and pulses kept *)

Module MIDIRotaryEncoderFacts.
Import MIDIRotaryEncoder.

Lemma fits_iff (bits x : Z) : fits bits x = true <-> is_long bits x.
Proof.
  unfold fits, is_long. rewrite andb_true_iff, Z.leb_le, Z.ltb_lt. tauto.
Qed.

Lemma checked_some (bits x y : Z) :
  checked bits x = Some y <-> is_long bits x /\ y = x.
Proof.
  unfold checked. destruct (fits bits x) eqn:Hf.
  - apply fits_iff in Hf. split.
    + intros H. injection H as <-. auto.
    + intros [_ ->]. reflexivity.
  - split; [discriminate |]. intros [H _]. apply fits_iff in H. congruence.
Qed.

Lemma checked_fits (bits x : Z) : is_long bits x -> checked bits x = Some x.
Proof. intros H. apply checked_some. auto. Qed.

(** What a call of [update()] that is defined did. *)
Lemma update_some (bits : Z) (this this' : t) (currentPosition : Z)
  (sent : option Z) :
  update bits this currentPosition = Some (this', sent) ->
  let moved := currentPosition - previousPosition this in
  let difference := Z.quot moved (pulsesPerStep this) in
  pulsesPerStep this <> 0 /\ is_long bits moved /\
  ((difference = 0 /\ this' = this /\ sent = None) \/
   (difference <> 0 /\
    this' = mk (speedMultiply this) (pulsesPerStep this)
              (previousPosition this + difference * pulsesPerStep this) /\
    sent = Some (difference * speedMultiply this))).
Proof.
  unfold update. cbv zeta.
  destruct (Z.eqb_spec (pulsesPerStep this) 0) as [| Hpps];
    [discriminate |].
  destruct (checked bits (currentPosition - previousPosition this))
    as [moved |] eqn:Hmoved; [| discriminate].
  apply checked_some in Hmoved as [Hlong ->].
  destruct (Z.eqb_spec
              (Z.quot (currentPosition - previousPosition this)
                 (pulsesPerStep this)) 0) as [Hzero | Hnz].
  - intros H. injection H as <- <-.
    split; [assumption | split; [assumption | left; auto]].
  - set (d := Z.quot (currentPosition - previousPosition this)
                (pulsesPerStep this)) in *.
    destruct (checked bits (d * speedMultiply this)) as [delta |] eqn:Hdelta;
      [| discriminate].
    destruct (checked bits (d * pulsesPerStep this)) as [step |] eqn:Hstep;
      [| intros H; discriminate H].
    destruct (checked bits (previousPosition this + step))
      as [position |] eqn:Hpos; [| discriminate].
    apply checked_some in Hdelta as [_ ->].
    apply checked_some in Hstep as [_ ->].
    apply checked_some in Hpos as [_ ->].
    intros H. injection H as <- <-.
    split; [assumption | split; [assumption | right; auto]].
Qed.

(** The part of a movement that is no whole step lies between zero and
    the movement. *)
Lemma rem_between (a b : Z) :
  b <> 0 ->
  Z.abs (Z.rem a b) < Z.abs b /\
  (0 <= a -> 0 <= Z.rem a b <= a) /\
  (a <= 0 -> a <= Z.rem a b <= 0).
Proof.
  intros Hb.
  assert (Hle : Z.abs (Z.rem a b) <= Z.abs a).
  { rewrite <- Z.rem_abs by exact Hb. apply Z.rem_le; lia. }
  split; [apply Z.rem_bound_abs, Hb |]. split; intros Ha.
  - pose proof (Z.rem_nonneg a b Hb Ha). lia.
  - pose proof (Z.rem_nonpos a b Hb Ha). lia.
Qed.

(** What is left between the encoder and the remembered position after a
    call. *)
Lemma update_remainder (bits : Z) (this this' : t)
  (currentPosition : Z) (sent : option Z) :
  update bits this currentPosition = Some (this', sent) ->
  let moved := currentPosition - previousPosition this in
  speedMultiply this' = speedMultiply this /\
  pulsesPerStep this' = pulsesPerStep this /\
  currentPosition - previousPosition this' =
    Z.rem moved (pulsesPerStep this) /\
  Z.abs (currentPosition - previousPosition this') <
    Z.abs (pulsesPerStep this) /\
  (0 <= moved -> 0 <= currentPosition - previousPosition this' <= moved) /\
  (moved <= 0 -> moved <= currentPosition - previousPosition this' <= 0).
Proof.
  intros Hupdate. apply update_some in Hupdate. cbv zeta in *.
  destruct Hupdate as (Hpps & _ & Hcases).
  set (moved := currentPosition - previousPosition this) in *.
  pose proof (Z.quot_rem' moved (pulsesPerStep this)) as Hqr.
  pose proof (rem_between moved (pulsesPerStep this) Hpps)
    as (Habs & Hpos & Hneg).
  assert (Hrem : currentPosition - previousPosition this' =
                 Z.rem moved (pulsesPerStep this) /\
                 speedMultiply this' = speedMultiply this /\
                 pulsesPerStep this' = pulsesPerStep this).
  { destruct Hcases as [(Hzero & -> & _) | (_ & -> & _)].
    - rewrite Hzero in Hqr. fold moved. split; [lia | auto].
    - cbn [previousPosition speedMultiply pulsesPerStep].
      split; [unfold moved in *; lia | auto]. }
  destruct Hrem as (Hrem & Hsm & Hp). rewrite Hrem.
  repeat split; auto; lia.
Qed.

(** X15: After a call of [update()], the position the object remembers and
    the position of the encoder differ by less than one step, namely by
    the remainder of the movement, which is between zero and the
    movement: the pulses that make no whole step are kept for the next
    call, none is dropped.  The two constants are never changed. *)
Theorem update_keeps_remainder (bits : Z) (this this' : t)
  (currentPosition : Z) (sent : option Z) :
  update bits this currentPosition = Some (this', sent) ->
  let moved := currentPosition - previousPosition this in
  speedMultiply this' = speedMultiply this /\
  pulsesPerStep this' = pulsesPerStep this /\
  currentPosition - previousPosition this' =
    Z.rem moved (pulsesPerStep this) /\
  Z.abs (currentPosition - previousPosition this') <
    Z.abs (pulsesPerStep this) /\
  (0 <= moved -> 0 <= currentPosition - previousPosition this' <= moved) /\
  (moved <= 0 -> moved <= currentPosition - previousPosition this' <= 0).
Proof. exact (update_remainder bits this this' currentPosition sent). Qed.

Lemma update_keeps_remainder_witness :
  update 32 (mk 1 4 0) 10 = Some (mk 1 4 8, Some 2) /\
  10 - previousPosition (mk 1 4 8) = Z.rem (10 - 0) 4.
Proof.
  split; [reflexivity |].
  pose proof (update_keeps_remainder 32 (mk 1 4 0) (mk 1 4 8) 10 (Some 2))
    as H.
  cbv zeta in H. destruct H as (_ & _ & Hrem & _); [reflexivity |].
  exact Hrem.
Defined.

(** X16: [update()] sends exactly when the encoder has moved by at least one
    whole step since the position remembered; it then sends the number of
    whole steps, rounded towards zero, times [speedMultiply].  Otherwise
    nothing is sent and the object is unchanged. *)
Theorem update_sends_whole_steps (bits : Z) (this this' : t)
  (currentPosition : Z) (sent : option Z) :
  update bits this currentPosition = Some (this', sent) ->
  let moved := currentPosition - previousPosition this in
  (Z.abs moved < Z.abs (pulsesPerStep this) ->
   sent = None /\ this' = this) /\
  (Z.abs (pulsesPerStep this) <= Z.abs moved ->
   sent = Some (Z.quot moved (pulsesPerStep this) * speedMultiply this) /\
   previousPosition this' =
     previousPosition this +
     Z.quot moved (pulsesPerStep this) * pulsesPerStep this /\
   Z.quot moved (pulsesPerStep this) <> 0).
Proof.
  intros Hupdate. apply update_some in Hupdate. cbv zeta in *.
  destruct Hupdate as (Hpps & _ & Hcases).
  pose proof (Z.quot_small_iff
                (currentPosition - previousPosition this)
                (pulsesPerStep this) Hpps) as Hsmall.
  split.
  - intros Hlt. apply Hsmall in Hlt.
    destruct Hcases as [(_ & -> & ->) | (Hnz & _)]; [auto | contradiction].
  - intros Hge.
    destruct Hcases as [(Hzero & _) | (Hnz & -> & ->)].
    + apply Hsmall in Hzero. lia.
    + auto.
Qed.

Lemma update_sends_whole_steps_witness :
  update 32 (mk 3 4 0) (-10) = Some (mk 3 4 (-8), Some (-6)) /\
  Some (-6) = Some (Z.quot (-10 - 0) 4 * 3).
Proof.
  split; [reflexivity |].
  pose proof (update_sends_whole_steps 32 (mk 3 4 0) (mk 3 4 (-8)) (-10)
                (Some (-6)) eq_refl) as [_ H].
  cbv zeta in H. cbn [previousPosition pulsesPerStep speedMultiply] in H.
  apply H. lia.
Defined.

(** X17: A second call of [update()] at the same encoder position sends
    nothing and changes nothing. *)
Theorem update_twice (bits : Z) (this this' : t) (currentPosition : Z)
  (sent : option Z) :
  update bits this currentPosition = Some (this', sent) ->
  update bits this' currentPosition = Some (this', None).
Proof.
  intros Hupdate.
  pose proof (update_remainder bits this this' currentPosition sent
                Hupdate) as H.
  cbv zeta in H. destruct H as (_ & Hp & _ & Habs & Hpos & Hneg).
  apply update_some in Hupdate. cbv zeta in Hupdate.
  destruct Hupdate as (Hpps & Hlong & _).
  unfold update. rewrite Hp.
  destruct (Z.eqb_spec (pulsesPerStep this) 0); [contradiction |].
  rewrite checked_fits.
  - assert (Hq : Z.quot (currentPosition - previousPosition this')
                   (pulsesPerStep this) = 0)
      by (apply Z.quot_small_iff; assumption).
    rewrite Hq. reflexivity.
  - unfold is_long in *.
    destruct (Z.le_gt_cases 0 (currentPosition - previousPosition this));
      lia.
Qed.

Lemma update_twice_witness :
  update 32 (mk 3 4 (-8)) (-10) = Some (mk 3 4 (-8), None).
Proof.
  apply (update_twice 32 (mk 3 4 0) (mk 3 4 (-8)) (-10) (Some (-6))).
  reflexivity.
Defined.

(** X18: Over any sequence of calls of [update()], what is sent adds up to
    [speedMultiply] times the number of whole steps by which the
    remembered position has advanced: the remembered position moves by
    whole steps only, no step is sent twice and none is lost, however the
    movement is spread over the calls.  After the last call the remembered
    position is less than one step from the last position read. *)
Theorem updates_total (bits : Z) (positions : list Z) :
  forall (this this' : t) (sents : list Z),
    updates bits this positions = Some (this', sents) ->
    speedMultiply this' = speedMultiply this /\
    pulsesPerStep this' = pulsesPerStep this /\
    (exists steps,
       previousPosition this' =
         previousPosition this + steps * pulsesPerStep this /\
       sum sents = steps * speedMultiply this) /\
    (positions <> [] ->
     Z.abs (last positions 0 - previousPosition this') <
     Z.abs (pulsesPerStep this)).
Proof.
  induction positions as [| p rest IH]; intros this this' sents Hups.
  - cbn in Hups. injection Hups as <- <-.
    repeat split; auto; [| congruence].
    exists 0. cbn. lia.
  - cbn [updates] in Hups.
    destruct (update bits this p) as [[this1 sent] |] eqn:Hup;
      [| discriminate].
    destruct (updates bits this1 rest) as [[this2 sents'] |] eqn:Hrest;
      [| discriminate].
    injection Hups as <- <-.
    specialize (IH this1 this2 sents' Hrest).
    destruct IH as (Hsm & Hpps & (steps & Hprev & Hsum) & Hlast).
    pose proof (update_remainder bits this this1 p sent Hup) as Hkeep.
    cbv zeta in Hkeep. destruct Hkeep as (Hsm1 & Hpps1 & _ & Habs & _).
    apply update_some in Hup. cbv zeta in Hup.
    destruct Hup as (_ & _ & Hcases).
    rewrite Hsm1 in Hsm. rewrite Hpps1 in Hpps.
    split; [exact Hsm |]. split; [exact Hpps |]. split.
    + rewrite Hpps1, Hsm1 in *.
      destruct Hcases as [(_ & Hsame & ->) | (_ & Hthis1 & ->)].
      * exists steps. rewrite Hsame in Hprev. auto.
      * exists (Z.quot (p - previousPosition this) (pulsesPerStep this)
                + steps).
        rewrite Hthis1 in Hprev. cbn [previousPosition] in Hprev.
        unfold sum in *. cbn [fold_right]. rewrite Hsum, Hprev. lia.
    + intros _. destruct rest as [| q rest'].
      * cbn in Hrest. injection Hrest as <- <-. exact Habs.
      * change (last (p :: q :: rest') 0) with (last (q :: rest') 0).
        rewrite <- Hpps1. apply Hlast. discriminate.
Qed.

Lemma updates_total_witness :
  updates 32 (make 3 4) [3; 6; 9; 2] = Some (mk 3 4 4, [3; 3; -3]) /\
  Z.abs (last [3; 6; 9; 2] 0 - 4) < Z.abs 4.
Proof.
  split; [reflexivity |].
  pose proof (updates_total 32 [3; 6; 9; 2] (make 3 4) (mk 3 4 4)
                [3; 3; -3] eq_refl) as (_ & _ & _ & Hlast).
  apply Hlast. discriminate.
Defined.

(** X19: [update()] is free of undefined behaviour whenever [pulsesPerStep] is
    positive, the two positions and their difference are values of [long]
    and so is the value to send; the other intermediate results then are
    values of [long] too.  With [pulsesPerStep = 0] the call divides by
    zero. *)
Theorem update_defined (bits : Z) (this : t) (currentPosition : Z) :
  (0 < pulsesPerStep this ->
   is_long bits (previousPosition this) ->
   is_long bits currentPosition ->
   is_long bits (currentPosition - previousPosition this) ->
   is_long bits
     (Z.quot (currentPosition - previousPosition this) (pulsesPerStep this)
      * speedMultiply this) ->
   exists result, update bits this currentPosition = Some result) /\
  (pulsesPerStep this = 0 -> update bits this currentPosition = None).
Proof.
  split.
  - intros Hpps Hprev Hcur Hmoved Hdelta. unfold update.
    destruct (Z.eqb_spec (pulsesPerStep this) 0); [lia |].
    rewrite (checked_fits _ _ Hmoved).
    set (moved := currentPosition - previousPosition this) in *.
    destruct (Z.quot moved (pulsesPerStep this) =? 0);
      [eexists; reflexivity |].
    rewrite (checked_fits _ _ Hdelta).
    pose proof (Z.quot_rem' moved (pulsesPerStep this)) as Hqr.
    pose proof (rem_between moved (pulsesPerStep this) ltac:(lia))
      as (_ & Hpos & Hneg).
    assert (Hstep : is_long bits
              (Z.quot moved (pulsesPerStep this) * pulsesPerStep this)).
    { unfold is_long in *.
      destruct (Z.le_gt_cases 0 moved); lia. }
    rewrite (checked_fits _ _ Hstep).
    assert (Hposn : is_long bits
              (previousPosition this +
               Z.quot moved (pulsesPerStep this) * pulsesPerStep this)).
    { unfold is_long, moved in *.
      destruct (Z.le_gt_cases 0 (currentPosition - previousPosition this));
        lia. }
    rewrite (checked_fits _ _ Hposn). eexists. reflexivity.
  - intros Hzero. unfold update. rewrite Hzero. reflexivity.
Qed.

Lemma update_defined_witness :
  exists result, update 32 (mk 3 4 0) (-10) = Some result.
Proof.
  apply (update_defined 32 (mk 3 4 0) (-10)); unfold is_long; cbn; lia.
Defined.

End MIDIRotaryEncoderFacts.
